(** * The CEO-buys screener: price-drop filter, insider-buy filter,
      candidate aggregation and the OHLCV normalizer

    A shallow embedding of [analysis_tools/candidate_finder.py],
    [utils/df_utils.py], the batch loops of
    [data_loaders/fmp_data_loader.py] and the guard of [main.py].

    Conventions of the embedding.
    - Numbers are IEEE-like values [fval]: a finite rational, the two
      infinities, or NaN.  Finite arithmetic is exact (no rounding, no
      overflow, no signed zero) and kept in lowest terms, so that equal
      numbers are equal terms; the special values follow IEEE-754, which is
      what numpy does on division by zero (it warns, it does not raise).
    - A pandas DataFrame is a list of column labels and a list of rows; row
      labels (the index) are never read by the functions modelled here and
      are left out.  Text is ASCII.
    - DataFrames are mutable Python objects: they live in a store and
      dictionaries hold references to them, so aliasing between the input
      and the output of a stage is visible. *)

From Stdlib Require Import QArith Qreduction ZArith List String Ascii Bool Lia.
From Stdlib Require Import OrderedTypeEx Sorted.
From stdpp Require Import base list.
Import ListNotations.
Local Open Scope string_scope.
Local Open Scope list_scope.

(** ** Numbers *)

Inductive fval : Type :=
| Fin (q : Q)
| PInf
| NInf
| NaN.

Definition Qzero (q : Q) : bool := Qeq_bool q 0.
Definition Qneg (q : Q) : bool := negb (Qle_bool 0 q).

Definition is_finite (x : fval) : bool :=
  match x with Fin _ => true | _ => false end.

Definition is_nan (x : fval) : bool :=
  match x with NaN => true | _ => false end.

Definition is_inf (x : fval) : bool :=
  match x with PInf | NInf => true | _ => false end.

Definition fopp (x : fval) : fval :=
  match x with
  | Fin q => Fin (Qred (- q))
  | PInf => NInf
  | NInf => PInf
  | NaN => NaN
  end.

Definition fadd (x y : fval) : fval :=
  match x, y with
  | NaN, _ | _, NaN => NaN
  | Fin a, Fin b => Fin (Qred (a + b))
  | PInf, NInf | NInf, PInf => NaN
  | PInf, _ | _, PInf => PInf
  | NInf, _ | _, NInf => NInf
  end.

Definition fsub (x y : fval) : fval :=
  match x, y with
  | NaN, _ | _, NaN => NaN
  | Fin a, Fin b => Fin (Qred (a - b))
  | PInf, PInf | NInf, NInf => NaN
  | PInf, _ | _, NInf => PInf
  | NInf, _ | _, PInf => NInf
  end.

Definition fmul (x y : fval) : fval :=
  match x, y with
  | NaN, _ | _, NaN => NaN
  | Fin a, Fin b => Fin (Qred (a * b))
  | PInf, Fin b | Fin b, PInf =>
      if Qzero b then NaN else if Qneg b then NInf else PInf
  | NInf, Fin b | Fin b, NInf =>
      if Qzero b then NaN else if Qneg b then PInf else NInf
  | PInf, PInf | NInf, NInf => PInf
  | PInf, NInf | NInf, PInf => NInf
  end.

Definition fdiv (x y : fval) : fval :=
  match x, y with
  | NaN, _ | _, NaN => NaN
  | Fin a, Fin b =>
      if Qzero b
      then (if Qzero a then NaN else if Qneg a then NInf else PInf)
      else Fin (Qred (a / b))
  | Fin _, _ => Fin 0
  | PInf, Fin b => if Qneg b then NInf else PInf
  | NInf, Fin b => if Qneg b then PInf else NInf
  | _, _ => NaN
  end.

(** [x <= y] on floats: false as soon as one side is NaN. *)
Definition fle (x y : fval) : bool :=
  match x, y with
  | NaN, _ | _, NaN => false
  | NInf, _ | _, PInf => true
  | Fin a, Fin b => Qle_bool a b
  | _, _ => false
  end.

(** ** Cells, rows, frames *)

Inductive cell : Type :=
| Num (x : fval)
| Str (s : string)
| Stamp (t : option Z)      (* datetime64; [None] is NaT *)
| Null.                     (* Python None in an object column *)

Definition isna (c : cell) : bool :=
  match c with
  | Num NaN | Stamp None | Null => true
  | _ => false
  end.

Record DataFrame : Type := mkDF {
  columns : list string;
  data : list (list cell)
}.

(** The exceptions the modelled code can raise.  [Dangling] is not a Python
    exception: it marks a reference to no object, which no run produces. *)
Inductive exn : Type :=
  KeyError | TypeError | ValueError | IndexError | Dangling.

Inductive result (A : Type) : Type :=
| Ok (a : A)
| Raise (e : exn).
Arguments Ok {A} a.
Arguments Raise {A} e.

Definition rbind {A B} (r : result A) (k : A -> result B) : result B :=
  match r with Ok a => k a | Raise e => Raise e end.

(** [df.empty]: one of the two axes has length zero. *)
Definition empty_frame (df : DataFrame) : bool :=
  match columns df, data df with
  | [], _ | _, [] => true
  | _, _ => false
  end.

Fixpoint positions (name : string) (labels : list string) (i : nat) : list nat :=
  match labels with
  | [] => []
  | l :: ls =>
      if String.eqb l name then i :: positions name ls (S i)
      else positions name ls (S i)
  end.

(** Position of a label.  A label that occurs twice selects a sub-frame in
    pandas, on which every scalar use in this program raises. *)
Definition locate (name : string) (labels : list string) : result nat :=
  match positions name labels 0 with
  | [] => Raise KeyError
  | [i] => Ok i
  | _ => Raise ValueError
  end.

Definition cell_at (row : list cell) (i : nat) : result cell :=
  match nth_error row i with
  | Some c => Ok c
  | None => Raise IndexError
  end.

(** A row as a Series: the labels paired with the cells, [df.iloc[i]];
    a negative [i] counts from the end. *)
Definition Series : Type := (list string * list cell)%type.

Definition iloc (df : DataFrame) (i : Z) : result Series :=
  let n := Z.of_nat (List.length (data df)) in
  let j := if (i <? 0)%Z then (n + i)%Z else i in
  if ((j <? 0) || (n <=? j))%Z then Raise IndexError
  else match nth_error (data df) (Z.to_nat j) with
       | Some r => Ok (columns df, r)
       | None => Raise IndexError
       end.

(** [row[name]] *)
Definition series_get (row : Series) (name : string) : result cell :=
  rbind (locate name (fst row)) (cell_at (snd row)).

Fixpoint traverse {A B} (f : A -> result B) (l : list A) : result (list B) :=
  match l with
  | [] => Ok []
  | a :: l' =>
      rbind (f a) (fun b => rbind (traverse f l') (fun bs => Ok (b :: bs)))
  end.

(** [df[name]]: the column as a list of cells. *)
Definition getitem (df : DataFrame) (name : string) : result (list cell) :=
  rbind (locate name (columns df))
        (fun i => traverse (fun r => cell_at r i) (data df)).

Fixpoint assign (name : string) (v : cell) (labels : list string)
         (row : list cell) : list cell :=
  match labels, row with
  | l :: ls, c :: cs =>
      (if String.eqb l name then v else c) :: assign name v ls cs
  | _, _ => row
  end.

Definition has_label (name : string) (labels : list string) : bool :=
  existsb (String.eqb name) labels.

Definition set_cell (name : string) (labels : list string)
           (row : list cell) (v : cell) : list cell :=
  if has_label name labels then assign name v labels row else row ++ [v].

Definition add_label (name : string) (labels : list string) : list string :=
  if has_label name labels then labels else labels ++ [name].

(** [df[name] = v] with a scalar [v]: broadcast to every row, in a new
    column at the end when the label is new. *)
Definition setitem_scalar (df : DataFrame) (name : string) (v : cell)
  : DataFrame :=
  mkDF (add_label name (columns df))
       (List.map (fun r => set_cell name (columns df) r v) (data df)).

Fixpoint set_rows (name : string) (labels : list string)
         (rows : list (list cell)) (vals : list cell)
  : result (list (list cell)) :=
  match rows, vals with
  | [], [] => Ok []
  | r :: rs, v :: vs =>
      rbind (set_rows name labels rs vs)
            (fun rs' => Ok (set_cell name labels r v :: rs'))
  | _, _ => Raise ValueError
  end.

(** [df[name] = vals] with one value per row. *)
Definition setitem_column (df : DataFrame) (name : string) (vals : list cell)
  : result DataFrame :=
  rbind (set_rows name (columns df) (data df) vals)
        (fun rs => Ok (mkDF (add_label name (columns df)) rs)).

Fixpoint select {A} (rows : list A) (mask : list bool) : list A :=
  match rows, mask with
  | r :: rs, b :: bs => if b then r :: select rs bs else select rs bs
  | _, _ => []
  end.

(** [df[mask]] with a boolean mask: a new frame holding the rows kept. *)
Definition mask_rows (df : DataFrame) (mask : list bool) : DataFrame :=
  mkDF (columns df) (select (data df) mask).

(** [df[[n1, n2, ...]]]: a new frame with the named columns, in that order. *)
Definition project (df : DataFrame) (names : list string) : result DataFrame :=
  rbind (traverse (fun n => locate n (columns df)) names)
        (fun ps =>
           rbind (traverse (fun r => traverse (cell_at r) ps) (data df))
                 (fun rs => Ok (mkDF names rs))).

(** [pd.concat] of frames that all carry the same columns (here always the
    three projected ones): the rows one after the other. *)
Definition concat_frames (frames : list DataFrame) : DataFrame :=
  mkDF (match frames with [] => [] | f :: _ => columns f end)
       (List.concat (List.map data frames)).

(** ** Strings: case folding and substring search *)

Definition lower_ascii (c : ascii) : ascii :=
  let n := nat_of_ascii c in
  if ((65 <=? n) && (n <=? 90))%nat then ascii_of_nat (n + 32) else c.

Fixpoint lower (s : string) : string :=
  match s with
  | EmptyString => EmptyString
  | String c s' => String (lower_ascii c) (lower s')
  end.

Fixpoint prefix_ci (pat s : string) : bool :=
  match pat, s with
  | EmptyString, _ => true
  | String a pat', String b s' =>
      Ascii.eqb (lower_ascii a) (lower_ascii b) && prefix_ci pat' s'
  | String _ _, EmptyString => false
  end.

(** [re.search(pat, s, re.IGNORECASE)] for a pattern of plain letters. *)
Fixpoint contains_ci (pat s : string) : bool :=
  prefix_ci pat s ||
  match s with
  | EmptyString => false
  | String _ s' => contains_ci pat s'
  end.

(** [series.str.contains(pat, case=False)] on one cell; a cell that is not
    text gives NA, which the [|] of the mask reads as False. *)
Definition str_contains (pat : string) (c : cell) : bool :=
  match c with
  | Str s => contains_ci pat s
  | _ => false
  end.

(** [series == text] on one cell. *)
Definition cell_eq_str (text : string) (c : cell) : bool :=
  match c with
  | Str s => String.eqb s text
  | _ => false
  end.

(** ** The object store, the run log and the monad of the pipeline *)

Inductive event : Type :=
| PrintLine (msg : string)
| MakeDirs (path : string)
| ToCsv (path : string) (table : DataFrame)
| PlotCandidates (table : DataFrame).

Record world : Type := mkWorld {
  objs : list DataFrame;     (* the DataFrame objects, by reference *)
  log : list event           (* prints, file writes, plots, oldest first *)
}.

Definition M (A : Type) : Type := world -> result (A * world).

Definition ret {A} (a : A) : M A := fun w => Ok (a, w).

Definition bind {A B} (m : M A) (k : A -> M B) : M B :=
  fun w => match m w with
           | Ok (a, w') => k a w'
           | Raise e => Raise e
           end.

Declare Scope py_scope.
Delimit Scope py_scope with py.
Notation "x <- c ;; k" := (bind c (fun x => k))
  (at level 100, c at next level, right associativity) : py_scope.
Notation "c ;;; k" := (bind c (fun _ => k))
  (at level 100, right associativity) : py_scope.
Local Open Scope py_scope.

Definition lift {A} (r : result A) : M A :=
  fun w => match r with Ok a => Ok (a, w) | Raise e => Raise e end.

Definition load (l : nat) : M DataFrame :=
  fun w => match objs w !! l with
           | Some d => Ok (d, w)
           | None => Raise Dangling
           end.

Definition store (l : nat) (d : DataFrame) : M unit :=
  fun w => Ok (tt, mkWorld (<[l := d]> (objs w)) (log w)).

Definition alloc (d : DataFrame) : M nat :=
  fun w => Ok (List.length (objs w), mkWorld (objs w ++ [d]) (log w)).

Definition emit (e : event) : M unit :=
  fun w => Ok (tt, mkWorld (objs w) (log w ++ [e])).

Fixpoint for_each {A S} (items : list A) (body : S -> A -> M S) (acc : S)
  : M S :=
  match items with
  | [] => ret acc
  | x :: items' => acc' <- body acc x ;; for_each items' body acc'
  end.

(** ** Dictionaries from symbols to DataFrame references

    Python dictionaries keep insertion order; assigning to a key that is
    present replaces its value in place. *)

Definition pydict : Type := list (string * nat).

Fixpoint dict_set (d : pydict) (k : string) (v : nat) : pydict :=
  match d with
  | [] => [(k, v)]
  | (k', v') :: d' =>
      if String.eqb k' k then (k', v) :: d' else (k', v') :: dict_set d' k v
  end.

Fixpoint dict_get (d : pydict) (k : string) : option nat :=
  match d with
  | [] => None
  | (k', v') :: d' => if String.eqb k' k then Some v' else dict_get d' k
  end.

Definition dict_mem (d : pydict) (k : string) : bool :=
  match dict_get d k with Some _ => true | None => false end.

Definition keys (d : pydict) : list string := List.map fst d.

(** ** candidate_finder.py *)

Definition as_num (c : cell) : result fval :=
  match c with Num x => Ok x | _ => Raise TypeError end.

(** [((first_price - last_price) / first_price) * 100] *)
Definition price_drop_of (first_price last_price : fval) : fval :=
  fmul (fdiv (fsub first_price last_price) first_price) (Fin 100).

(** The body of the loop of [filter_by_price_drop]. *)
Definition price_drop_body (price_drop_percent : fval)
           (filtered_prices_dict : pydict) (item : string * nat) : M pydict :=
  let '(symbol, df) := item in
  d <- load df ;;
  if negb (empty_frame d) then
    c0 <- lift (rbind (iloc d 0) (fun r => series_get r "close")) ;;
    c1 <- lift (rbind (iloc d (-1)) (fun r => series_get r "close")) ;;
    first_price <- lift (as_num c0) ;;
    last_price <- lift (as_num c1) ;;
    let price_drop := price_drop_of first_price last_price in
    store df (setitem_scalar d "price_drop" (Num price_drop)) ;;;
    if fle price_drop price_drop_percent
    then ret (dict_set filtered_prices_dict symbol df)
    else ret filtered_prices_dict
  else ret filtered_prices_dict.

Definition filter_by_price_drop (prices_dict : pydict)
           (price_drop_percent : fval) : M pydict :=
  for_each prices_dict (price_drop_body price_drop_percent) [].

(** The boolean mask of [filter_by_ceo_buys], for one row. *)
Definition ceo_buy (owner type : cell) : bool :=
  (str_contains "CEO" owner || str_contains "CFO" owner
   || str_contains "COO" owner || str_contains "director" owner)
  && cell_eq_str "P-Purchase" type.

Fixpoint zip_mask (owners types : list cell) : list bool :=
  match owners, types with
  | o :: os, t :: ts => ceo_buy o t :: zip_mask os ts
  | _, _ => []
  end.

Definition ceo_buys_of (d : DataFrame) : result DataFrame :=
  rbind (getitem d "typeOfOwner") (fun owners =>
  rbind (getitem d "transactionType") (fun types =>
  Ok (mask_rows d (zip_mask owners types)))).

Definition ceo_buys_body (filtered_trades_dict : pydict)
           (item : string * nat) : M pydict :=
  let '(symbol, df) := item in
  d <- load df ;;
  ceo_buys <- lift (ceo_buys_of d) ;;
  if negb (empty_frame ceo_buys) then
    l <- alloc ceo_buys ;;
    ret (dict_set filtered_trades_dict symbol l)
  else ret filtered_trades_dict.

Definition filter_by_ceo_buys (insider_trades_dict : pydict) : M pydict :=
  for_each insider_trades_dict ceo_buys_body [].

(** Arithmetic between two cells of numeric columns.  pandas computes an
    object column only where both sides are present and leaves NaN
    elsewhere; text and timestamps raise. *)
Definition arith (op : fval -> fval -> fval) (a b : cell) : result cell :=
  match a, b with
  | Stamp _, _ | _, Stamp _ => Raise TypeError
  | Null, _ | _, Null => Ok (Num NaN)
  | Num x, Num y => Ok (Num (op x y))
  | _, _ => Raise TypeError
  end.

Fixpoint zip_arith (op : fval -> fval -> fval) (xs ys : list cell)
  : result (list cell) :=
  match xs, ys with
  | x :: xs', y :: ys' =>
      rbind (arith op x y)
            (fun c => rbind (zip_arith op xs' ys') (fun cs => Ok (c :: cs)))
  | _, _ => Ok []
  end.

(** [df['securitiesTransacted'] / df['securitiesOwned'] * 100] *)
Definition ownership_change_of (d : DataFrame) : result (list cell) :=
  rbind (getitem d "securitiesTransacted") (fun transacted =>
  rbind (getitem d "securitiesOwned") (fun owned =>
  rbind (zip_arith fdiv transacted owned) (fun ratio =>
  traverse (fun c => arith fmul c (Num (Fin 100))) ratio))).

(** [series.iloc[-1]] *)
Definition last_cell (col : list cell) : result cell :=
  match List.rev col with
  | c :: _ => Ok c
  | [] => Raise IndexError
  end.

Definition candidate_columns : list string :=
  ["symbol"; "ownership_change"; "price_drop"].

(** The body of the loop that builds [candidates_list]
    ([find_candidates], the lines from [df['symbol'] = symbol] to
    [candidates_list.append]). *)
Definition collect_body (filtered_prices_dict : pydict)
           (candidates_list : list DataFrame) (item : string * nat)
  : M (list DataFrame) :=
  let '(symbol, df) := item in
  d <- load df ;;
  let d1 := setitem_scalar d "symbol" (Str symbol) in
  store df d1 ;;;
  ownership_change <- lift (ownership_change_of d1) ;;
  d2 <- lift (setitem_column d1 "ownership_change" ownership_change) ;;
  store df d2 ;;;
  d3 <- match dict_get filtered_prices_dict symbol with
        | Some prices_df =>
            p <- load prices_df ;;
            price_drop <- lift (rbind (getitem p "price_drop") last_cell) ;;
            let d3 := setitem_scalar d2 "price_drop" price_drop in
            store df d3 ;;;
            ret d3
        | None => ret d2
        end ;;
  row <- lift (project d3 candidate_columns) ;;
  ret (candidates_list ++ [row]).

Definition collect_candidates (filtered_prices_dict filtered_trades_dict : pydict)
  : M (list DataFrame) :=
  for_each filtered_trades_dict (collect_body filtered_prices_dict) [].

(** *** groupby('symbol').agg(mean).reset_index() *)

(** The mean pandas takes: NaN entries are skipped, and the mean of no
    entry is NaN. *)
Definition mean (xs : list fval) : fval :=
  let ys := List.filter (fun x => negb (is_nan x)) xs in
  match ys with
  | [] => NaN
  | _ => fdiv (fold_left fadd ys (Fin 0))
              (Fin (inject_Z (Z.of_nat (List.length ys))))
  end.

Fixpoint insert_sorted (k : string) (ks : list string) : list string :=
  match ks with
  | [] => [k]
  | k' :: ks' =>
      if String.eqb k k' then ks
      else if String.ltb k k' then k :: ks
      else k' :: insert_sorted k ks'
  end.

(** The group keys: each symbol once, in ascending order. *)
Definition group_keys (symbols : list string) : list string :=
  fold_right insert_sorted [] symbols.

Definition as_key (c : cell) : result string :=
  match c with Str s => Ok s | _ => Raise TypeError end.

Definition as_measure (c : cell) : result fval :=
  match c with
  | Num x => Ok x
  | Null => Ok NaN
  | _ => Raise TypeError
  end.

(** The entries of [vals] on the rows whose key is [k]. *)
Definition group_of (k : string) (symbols : list string) (vals : list fval)
  : list fval :=
  select vals (List.map (String.eqb k) symbols).

Definition groupby_mean (d : DataFrame) : result DataFrame :=
  rbind (rbind (getitem d "symbol") (traverse as_key)) (fun symbols =>
  rbind (rbind (getitem d "ownership_change") (traverse as_measure)) (fun oc =>
  rbind (rbind (getitem d "price_drop") (traverse as_measure)) (fun pd =>
  Ok (mkDF candidate_columns
        (List.map (fun k => [Str k;
                             Num (mean (group_of k symbols oc));
                             Num (mean (group_of k symbols pd))])
                  (group_keys symbols)))))).

(** [os.path.join(dir, name)] for a relative [name]. *)
Definition ends_with_slash (s : string) : bool :=
  match List.rev (list_ascii_of_string s) with
  | c :: _ => Ascii.eqb c "/"%char
  | [] => false
  end.

Definition path_join (dir name : string) : string :=
  if String.eqb dir "" then name
  else if ends_with_slash dir then dir ++ name
  else dir ++ "/" ++ name.

(** [series.unique()]: first occurrences, in order. *)
Fixpoint unique (l : list string) : list string :=
  match l with
  | [] => []
  | x :: l' => x :: List.filter (fun y => negb (String.eqb x y)) (unique l')
  end.

Section Pipeline.

(** What the run is given from outside: the configuration constants
    ([config.py]), the S&P 500 symbol column ([MarketSymbolLoader]) and
    the two per-symbol requests to the data provider (network or cache),
    which answer with a frame or with [None]. *)
Variable PRICE_DROP_PERCENT : fval.
Variable RESULTS_DIR : string.
Variable sp500_symbols : list string.
Variable fetch_daily_prices_by_date : string -> option DataFrame.
Variable fetch_insider_trades : string -> option DataFrame.

(** fmp_data_loader.py, [fetch_multiple_daily_prices_by_date] *)
Definition fetch_multiple_daily_prices_by_date (symbol_list : list string)
  : M pydict :=
  for_each symbol_list
    (fun results symbol =>
       emit (PrintLine ("Now fetching price data for " ++ symbol ++ "...")) ;;;
       match fetch_daily_prices_by_date symbol with
       | Some df => l <- alloc df ;; ret (dict_set results symbol l)
       | None =>
           emit (PrintLine ("Failed to fetch data for " ++ symbol)) ;;;
           ret results
       end)
    [].

(** fmp_data_loader.py, [fetch_multiple_insider_trades_by_date] *)
Definition fetch_multiple_insider_trades_by_date (symbol_list : list string)
  : M pydict :=
  for_each symbol_list
    (fun results symbol =>
       emit (PrintLine ("Now fetching insider trades data for "
                    ++ symbol ++ "...")) ;;;
       match fetch_insider_trades symbol with
       | Some df => l <- alloc df ;; ret (dict_set results symbol l)
       | None =>
           emit (PrintLine ("Failed to fetch insider trades data for "
                        ++ symbol)) ;;;
           ret results
       end)
    [].

(** [find_candidates] from the list [candidates_list] on: the empty
    check, the grouping and the CSV file. *)
Definition finish_candidates (candidates_list : list DataFrame)
  : M (option DataFrame) :=
  match candidates_list with
  | [] =>
      emit (PrintLine "No matching stocks found") ;;;
      ret None
  | _ =>
      candidates_df <- lift (groupby_mean (concat_frames candidates_list)) ;;
      emit (MakeDirs RESULTS_DIR) ;;;
      emit (ToCsv (path_join RESULTS_DIR "candidates.csv") candidates_df) ;;;
      ret (Some candidates_df)
  end.

(** [find_candidates] up to the insider-buy filter: the symbols, the
    prices, the price-drop filter, the insider trades of the symbols that
    passed, the insider-buy filter. *)
Definition survivors : M (pydict * pydict) :=
  let symbol_list := unique sp500_symbols in
  prices_dict <- fetch_multiple_daily_prices_by_date symbol_list ;;
  filtered_prices_dict <-
    filter_by_price_drop prices_dict PRICE_DROP_PERCENT ;;
  let symbol_list := keys filtered_prices_dict in
  insider_trades_dict <- fetch_multiple_insider_trades_by_date symbol_list ;;
  filtered_trades_dict <- filter_by_ceo_buys insider_trades_dict ;;
  ret (filtered_prices_dict, filtered_trades_dict).

(** [find_candidates] from there on: the candidate rows, the grouping and
    the CSV file. *)
Definition aggregate (filtered_prices_dict filtered_trades_dict : pydict)
  : M (option DataFrame) :=
  candidates_list <-
    collect_candidates filtered_prices_dict filtered_trades_dict ;;
  finish_candidates candidates_list.

Definition find_candidates : M (option DataFrame) :=
  both <- survivors ;;
  aggregate (fst both) (snd both).


End Pipeline.

(** ** df_utils.py: the OHLCV normalizer *)

Definition rename_mapping : list (string * string) :=
  [("Date", "date"); ("Datetime", "date"); ("DateTime", "date");
   ("Time", "time"); ("Open", "open"); ("High", "high"); ("Low", "low");
   ("Close", "close"); ("AdjClose", "adj_close"); ("Adj Close", "adj_close");
   ("adjclose", "adj_close"); ("Volume", "volume")].

Fixpoint mapping_get (m : list (string * string)) (k : string) : option string :=
  match m with
  | [] => None
  | (k', v) :: m' => if String.eqb k' k then Some v else mapping_get m' k
  end.

(** [df.rename(columns=f)]: the data is copied, the labels are mapped. *)
Definition rename_columns (f : string -> string) (df : DataFrame) : DataFrame :=
  mkDF (List.map f (columns df)) (data df).

Definition rename_by (m : list (string * string)) (l : string) : string :=
  match mapping_get m l with Some v => v | None => l end.

(** [df.replace([np.inf, -np.inf], np.nan)] *)
Definition replace_inf_cell (c : cell) : cell :=
  match c with
  | Num PInf | Num NInf => Num NaN
  | _ => c
  end.

Definition replace_inf (df : DataFrame) : DataFrame :=
  mkDF (columns df) (List.map (List.map replace_inf_cell) (data df)).

Definition complete_row (r : list cell) : bool :=
  forallb (fun c => negb (isna c)) r.

(** [df.dropna()]: keep the rows without a missing value. *)
Definition dropna (df : DataFrame) : DataFrame :=
  mkDF (columns df) (List.filter complete_row (data df)).

Fixpoint fill_row (prev row : list cell) : list cell :=
  match prev, row with
  | p :: ps, c :: cs => (if isna c then p else c) :: fill_row ps cs
  | _, _ => row
  end.

Fixpoint ffill_from (prev : list cell) (rows : list (list cell))
  : list (list cell) :=
  match rows with
  | [] => []
  | r :: rs => let r' := fill_row prev r in r' :: ffill_from r' rs
  end.

(** [df.ffill()]: a missing cell takes the last value above it in its
    column, when there is one. *)
Definition ffill (df : DataFrame) : DataFrame :=
  mkDF (columns df)
       (match data df with
        | [] => []
        | r :: rs => r :: ffill_from r rs
        end).

(** [pd.api.types.is_numeric_dtype] of a column: every cell is a number. *)
Definition is_numeric_dtype (col : list cell) : bool :=
  forallb (fun c => match c with Num _ => true | _ => false end) col.

Section Normalizer.

(** The parsers of pandas, taken as given: text or a number to a
    timestamp ([None] when it cannot be read), text to a number (NaN
    when it cannot be read). *)
Variable parse_datetime : string -> option Z.
Variable datetime_of_number : fval -> option Z.
Variable parse_number : string -> fval.

(** [pd.to_datetime(..., errors='coerce')] on one cell. *)
Definition to_datetime (c : cell) : cell :=
  match c with
  | Str s => Stamp (parse_datetime s)
  | Num x => Stamp (datetime_of_number x)
  | Stamp t => Stamp t
  | Null => Stamp None
  end.

(** [pd.to_numeric(..., errors='coerce')] on one cell. *)
Definition to_numeric (c : cell) : cell :=
  match c with
  | Num x => Num x
  | Str s => Num (parse_number s)
  | Stamp _ | Null => Num NaN
  end.

(** [if 'date' in df.columns: df['date'] = pd.to_datetime(df['date'], ...)] *)
Definition convert_date (df : DataFrame) : result DataFrame :=
  if has_label "date" (columns df) then
    rbind (getitem df "date")
          (fun col => setitem_column df "date" (List.map to_datetime col))
  else Ok df.

(** One turn of the last loop.  [df[column]] of a label that occurs twice
    is a frame, which [is_numeric_dtype] answers with [False]. *)
Definition numeric_step (df : DataFrame) (column : string) : result DataFrame :=
  match locate column (columns df) with
  | Ok _ =>
      rbind (getitem df column) (fun col =>
        if is_numeric_dtype col
        then setitem_column df column (List.map to_numeric col)
        else Ok df)
  | Raise _ => Ok df
  end.

Fixpoint numeric_columns (labels : list string) (df : DataFrame)
  : result DataFrame :=
  match labels with
  | [] => Ok df
  | column :: labels' =>
      rbind (numeric_step df column) (numeric_columns labels')
  end.

Definition standardize_ohlcv_dataframe (df : DataFrame) : result DataFrame :=
  let df := rename_columns lower df in
  let df := rename_columns (rename_by rename_mapping) df in
  rbind (convert_date df) (fun df =>
    let df := replace_inf df in
    let df := dropna df in
    let df := ffill df in
    numeric_columns (columns df) df).

(** The same normalizer with the forward-fill step taken out. *)
Definition standardize_without_ffill (df : DataFrame) : result DataFrame :=
  let df := rename_columns lower df in
  let df := rename_columns (rename_by rename_mapping) df in
  rbind (convert_date df) (fun df =>
    let df := replace_inf df in
    let df := dropna df in
    numeric_columns (columns df) df).

End Normalizer.

(** ** Notions used to state the properties *)

(** [df.iloc[i]['close']] *)
Definition close_at (d : DataFrame) (i : Z) : result cell :=
  rbind (iloc d i) (fun r => series_get r "close").

(** A frame the price filter can read: when it has rows, the first and the
    last one hold a number under the one label [close]. *)
Definition priced (d : DataFrame) : Prop :=
  empty_frame d = true \/
  exists a b, close_at d 0 = Ok (Num a) /\ close_at d (-1) = Ok (Num b).

(** The price drop of a series with data, from its first and last close. *)
Definition frame_drop (d : DataFrame) : option fval :=
  if empty_frame d then None
  else match close_at d 0, close_at d (-1) with
       | Ok (Num a), Ok (Num b) => Some (price_drop_of a b)
       | _, _ => None
       end.

(** The frame as the price filter leaves it. *)
Definition annotate (d : DataFrame) : DataFrame :=
  match frame_drop d with
  | Some pd => setitem_scalar d "price_drop" (Num pd)
  | None => d
  end.

Definition retained (o : list DataFrame) (thr : fval) (item : string * nat)
  : bool :=
  match o !! snd item with
  | Some d => match frame_drop d with
              | Some pd => fle pd thr
              | None => false
              end
  | None => false
  end.

Definition refs (d : pydict) : list nat := List.map snd d.



Definition falling_series : DataFrame :=
  mkDF ["close"] [[Num (Fin 100)]; [Num (Fin 80)]].

Definition empty_series : DataFrame := mkDF ["close"] [].

Definition falling_world : world := mkWorld [falling_series] [].
Definition mixed_world : world := mkWorld [falling_series; empty_series] [].

(** [s] contains [pat] when case is ignored: the two case-folded texts
    are related by the substring relation. *)
Definition ci_substring (pat s : string) : Prop :=
  exists pre suf : string, lower s = (pre ++ lower pat ++ suf)%string.

(** The qualifying predicate of the insider-buy filter, in words of the
    specification. *)
Definition insider_buy (owner_type transaction_type : string) : Prop :=
  transaction_type = "P-Purchase"
  /\ (ci_substring "CEO" owner_type \/ ci_substring "CFO" owner_type
      \/ ci_substring "COO" owner_type \/ ci_substring "director" owner_type).

(** A transaction (a row [r] of the frame [d]) that qualifies. *)
Definition qualifying_row (d : DataFrame) (r : list cell) : Prop :=
  exists owner type,
    series_get (columns d, r) "typeOfOwner" = Ok (Str owner)
    /\ series_get (columns d, r) "transactionType" = Ok (Str type)
    /\ insider_buy owner type.

Definition row_mask (d : DataFrame) (r : list cell) : bool :=
  match series_get (columns d, r) "typeOfOwner",
        series_get (columns d, r) "transactionType" with
  | Ok o, Ok t => ceo_buy o t
  | _, _ => false
  end.

(** A frame the insider-buy filter can read: it has the two columns. *)
Definition traded (d : DataFrame) : Prop :=
  exists owners types,
    getitem d "typeOfOwner" = Ok owners
    /\ getitem d "transactionType" = Ok types.

Definition trades_example : DataFrame :=
  mkDF ["typeOfOwner"; "transactionType"]
       [[Str "Senior Director of Engineering"; Str "P-Purchase"];
        [Str "Vice President"; Str "P-Purchase"];
        [Str "CEO"; Str "S-Sale"]].

Definition no_buys_example : DataFrame :=
  mkDF ["typeOfOwner"; "transactionType"]
       [[Str "Vice President"; Str "P-Purchase"];
        [Str "CEO"; Str "S-Sale"]].

Definition trades_world : world :=
  mkWorld [trades_example; no_buys_example] [].

(** The canonical lowercase column names of a price table. *)
Definition canonical_names : list string :=
  ["date"; "open"; "high"; "low"; "close"; "adj_close"; "volume"].

Definition clean_cell (c : cell) : Prop :=
  isna c = false /\ c <> Num PInf /\ c <> Num NInf.

(** Already-canonical data: canonical column names, no missing and no
    infinite value. *)
Definition canonical_frame (d : DataFrame) : Prop :=
  (forall l, l ∈ columns d -> l ∈ canonical_names)
  /\ (forall r c, r ∈ data d -> c ∈ r -> clean_cell c).

Definition canonical_example : DataFrame :=
  mkDF ["date"; "close"; "volume"]
       [[Str "2024-05-02"; Num (Fin 100); Num (Fin 12000)];
        [Str "2024-05-03"; Num (Fin 80); Num (Fin 15000)]].

Definition example_parse_datetime (s : string) : option Z :=
  Some (Z.of_nat (String.length s)).
Definition example_datetime_of_number (x : fval) : option Z := None.
Definition example_parse_number (s : string) : fval := NaN.

(** A table as pandas has it: distinct labels, every row as long as the
    list of labels. *)
Definition wf_frame (d : DataFrame) : Prop :=
  NoDup (columns d)
  /\ forall r, r ∈ data d -> List.length r = List.length (columns d).

(** The transaction table [d] holds the numbers [ts] under
    [securitiesTransacted] and [os] under [securitiesOwned]. *)
Definition holdings (d : DataFrame) (ts os : list fval) : Prop :=
  wf_frame d
  /\ getitem d "securitiesTransacted" = Ok (List.map Num ts)
  /\ getitem d "securitiesOwned" = Ok (List.map Num os).

(** The price drop attached to the symbol [s]: the last cell of the
    [price_drop] column of its price series. *)
Definition attached_drop (o : list DataFrame) (prices : pydict) (s : string)
           (x : cell) : Prop :=
  exists lp p pcol,
    dict_get prices s = Some lp /\ o !! lp = Some p
    /\ getitem p "price_drop" = Ok pcol /\ last_cell pcol = Ok x.

(** [securities_transacted / securities_owned * 100], row by row. *)
Definition ownership_changes (ts os : list fval) : list fval :=
  zip_with (fun t o => fmul (fdiv t o) (Fin 100)) ts os.

(** The transaction table of [s] as the aggregator leaves it. *)
Definition annotate_trades (s : string) (oc : list cell) (x : cell)
           (d : DataFrame) : result DataFrame :=
  rbind (setitem_column (setitem_scalar d "symbol" (Str s))
                        "ownership_change" oc)
        (fun d2 => Ok (setitem_scalar d2 "price_drop" x)).

(** The three-column table appended to [candidates_list] for [s]. *)
Definition candidate_table (s : string) (changes : list fval) (x : cell)
  : DataFrame :=
  mkDF candidate_columns (List.map (fun c => [Str s; Num c; x]) changes).

(** What the aggregator does with the entry [item] of its input: from the
    store [o] it reads the table and the attached price drop, it appends
    the table [f] to [candidates_list], and in the store [o'] it leaves the
    transaction table with the three columns written into it. *)
Definition candidate_of (o o' : list DataFrame) (prices : pydict)
           (item : string * nat) (f : DataFrame) : Prop :=
  exists d ts os x d3,
    o !! snd item = Some d /\ holdings d ts os
    /\ attached_drop o prices (fst item) x
    /\ f = candidate_table (fst item) (ownership_changes ts os) x
    /\ annotate_trades (fst item) (List.map Num (ownership_changes ts os)) x d
       = Ok d3
    /\ o' !! snd item = Some d3.













(** The input of the aggregator in the example of two purchases of 5% and
    15% by insiders of ABC, whose price series carries a drop of 20. *)
Definition abc_prices : DataFrame :=
  mkDF ["close"; "price_drop"]
       [[Num (Fin 100); Num (Fin 20)]; [Num (Fin 80); Num (Fin 20)]].

Definition abc_buys : DataFrame :=
  mkDF ["typeOfOwner"; "transactionType";
        "securitiesTransacted"; "securitiesOwned"]
       [[Str "CEO"; Str "P-Purchase"; Num (Fin 500); Num (Fin 10000)];
        [Str "Director"; Str "P-Purchase"; Num (Fin 1500); Num (Fin 10000)]].

Definition abc_world : world := mkWorld [abc_prices; abc_buys] [].
Definition abc_prices_dict : pydict := [("ABC", 0%nat)].
Definition abc_trades_dict : pydict := [("ABC", 1%nat)].







(** The end-to-end scenario: ABC falls from 100 to 70, XYZ rises from 100
    to 110, ABC has one purchase of 1000 shares by its CEO, who then owns
    10000; the provider has no insider trade for XYZ. *)
Definition e2e_symbols : list string := ["ABC"; "XYZ"].

Definition e2e_prices (symbol : string) : option DataFrame :=
  if String.eqb symbol "ABC"
  then Some (mkDF ["close"] [[Num (Fin 100)]; [Num (Fin 70)]])
  else if String.eqb symbol "XYZ"
  then Some (mkDF ["close"] [[Num (Fin 100)]; [Num (Fin 110)]])
  else None.

Definition e2e_trades (symbol : string) : option DataFrame :=
  if String.eqb symbol "ABC"
  then Some (mkDF ["typeOfOwner"; "transactionType";
                   "securitiesTransacted"; "securitiesOwned"]
                  [[Str "CEO"; Str "P-Purchase";
                    Num (Fin 1000); Num (Fin 10000)]])
  else None.

Definition start : world := mkWorld [] [].

(** The aggregator has written its three columns into the table of
    [item], in the store: [o] before, [o'] after. *)
Definition written_in_place (o o' : list DataFrame) (item : string * nat)
  : Prop :=
  exists d d3 oc x,
    o !! snd item = Some d
    /\ annotate_trades (fst item) oc x d = Ok d3
    /\ o' !! snd item = Some d3
    /\ columns d3
       = add_label "price_drop"
           (add_label "ownership_change" (add_label "symbol" (columns d))).

Definition falling_annotated : DataFrame :=
  mkDF ["close"; "price_drop"]
       [[Num (Fin 100); Num (Fin 20)]; [Num (Fin 80); Num (Fin 20)]].

(** ** Notions for the loaders and for the whole run *)

(** The provider has data for the symbol. *)
Definition fetched (fetch : string -> option DataFrame) (s : string) : bool :=
  match fetch s with Some _ => true | None => false end.

(** The symbols with data, and their frames, in request order. *)
Definition hits (fetch : string -> option DataFrame) (symbols : list string)
  : list string :=
  List.filter (fetched fetch) symbols.

Definition frames_of (fetch : string -> option DataFrame)
           (symbols : list string) : list DataFrame :=
  flat_map (fun s => match fetch s with Some d => [d] | None => [] end) symbols.






(** The symbols of a Candidate table, row by row. *)
Definition row_symbols (table : DataFrame) : list cell :=
  List.map (fun r => nth 0 r Null) (data table).


(** A series whose first close is 0 and whose last close is 50, and a table
    with rows but without a [close] column. *)
Definition zero_start_series : DataFrame :=
  mkDF ["close"] [[Num (Fin 0)]; [Num (Fin 50)]].

Definition zero_start_world : world := mkWorld [zero_start_series] [].

Definition no_close_table : DataFrame :=
  mkDF ["open"] [[Num (Fin 100)]; [Num (Fin 80)]].

Definition no_close_world : world :=
  mkWorld [falling_series; no_close_table] [].

(** An insider-trades table of a symbol that is not in the dictionary of
    price series. *)
Definition stray_world : world := mkWorld [abc_prices; abc_buys] [].
Definition stray_trades_dict : pydict := [("QQQ", 1%nat)].


(** Candidate rows of three symbols, not in order. *)
Definition unordered_rows : DataFrame :=
  mkDF candidate_columns
       [[Str "MSFT"; Num (Fin 4); Num (Fin (-12))];
        [Str "AAPL"; Num (Fin 2); Num (Fin (-15))];
        [Str "MSFT"; Num (Fin 6); Num (Fin (-12))];
        [Str "IBM"; Num (Fin 1); Num (Fin (-30))]].

(** The label the normalizer gives to a column: the lowercased label,
    except that [adjclose] becomes [adj_close]. *)
Definition normal_label (l : string) : string :=
  if String.eqb (lower l) "adjclose" then "adj_close" else lower l.

Definition is_upper (c : ascii) : bool :=
  let n := nat_of_ascii c in ((65 <=? n) && (n <=? 90))%nat.

(** A raw price table with capitalised labels, an infinite and a missing
    value. *)
Definition raw_example : DataFrame :=
  mkDF ["Date"; "Close"; "Adj Close"; "adjClose"]
       [[Str "2024-05-02"; Num (Fin 100); Num (Fin 99); Num (Fin 99)];
        [Str "2024-05-03"; Num PInf; Num (Fin 80); Num (Fin 80)];
        [Str "2024-05-06"; Num (Fin 81); Num NaN; Num (Fin 81)];
        [Str "2024-05-07"; Num (Fin 82); Num (Fin 82); Num (Fin 82)]].

(** What the normalizer makes of [raw_example]. *)
Definition raw_example_normalized : DataFrame :=
  mkDF ["date"; "close"; "adj close"; "adj_close"]
       [[Stamp (Some 10%Z); Num (Fin 100); Num (Fin 99); Num (Fin 99)];
        [Stamp (Some 10%Z); Num (Fin 82); Num (Fin 82); Num (Fin 82)]].

(** Every row has one cell for each label, as in every table of pandas. *)
Definition rectangular (d : DataFrame) : Prop :=
  forall r, r ∈ data d -> List.length r = List.length (columns d).

(** The number of columns that are called [date] once renamed. *)
Definition date_columns (df : DataFrame) : nat :=
  List.length (List.filter (String.eqb "date")
                           (List.map normal_label (columns df))).

Definition two_dates_example : DataFrame :=
  mkDF ["Date"; "date"; "close"]
       [[Str "2024-05-02"; Str "2024-05-02"; Num (Fin 100)]].

(** * Properties *)

(** ** The monad *)

Lemma bind_ok {A B} (m : M A) (k : A -> M B) w a w' :
  m w = Ok (a, w') -> bind m k w = k a w'.
Proof. intros H. unfold bind. now rewrite H. Qed.

Lemma bind_raise {A B} (m : M A) (k : A -> M B) w e :
  m w = Raise e -> bind m k w = Raise e.
Proof. intros H. unfold bind. now rewrite H. Qed.

Lemma bind_inv {A B} (m : M A) (k : A -> M B) w b w2 :
  bind m k w = Ok (b, w2) ->
  exists a w1, m w = Ok (a, w1) /\ k a w1 = Ok (b, w2).
Proof.
  unfold bind. destruct (m w) as [[a w1]|e]; [|discriminate].
  intros H. now exists a, w1.
Qed.

Lemma lift_ok {A} (r : result A) a w : r = Ok a -> lift r w = Ok (a, w).
Proof. intros ->. reflexivity. Qed.

Lemma lift_inv {A} (r : result A) a w w' :
  lift r w = Ok (a, w') -> r = Ok a /\ w' = w.
Proof. unfold lift. destruct r; [|discriminate]. intros [= -> ->]. auto. Qed.

Lemma load_ok l d w : objs w !! l = Some d -> load l w = Ok (d, w).
Proof. intros H. unfold load. now rewrite H. Qed.

Lemma load_inv l d w w' :
  load l w = Ok (d, w') -> objs w !! l = Some d /\ w' = w.
Proof.
  unfold load. destruct (objs w !! l); [|discriminate].
  intros [= -> ->]. auto.
Qed.

Lemma world_eta w : mkWorld (objs w) (log w) = w.
Proof. now destruct w. Qed.

(** ** Dictionaries *)

(** Distinctness of the entries of an explicit list. *)
Ltac nodup_list :=
  repeat (apply NoDup_cons; split;
          [rewrite ?elem_of_cons, ?elem_of_nil; intuition discriminate|]);
  apply NoDup_nil_2.

Lemma dict_get_None d k : k ∉ keys d -> dict_get d k = None.
Proof.
  induction d as [|[k' v] d IH]; simpl; [reflexivity|].
  rewrite not_elem_of_cons. intros [Hne Hd].
  destruct (String.eqb_spec k' k); [congruence|]. auto.
Qed.

Lemma dict_set_fresh d k v : k ∉ keys d -> dict_set d k v = d ++ [(k, v)].
Proof.
  induction d as [|[k' v'] d IH]; simpl; [reflexivity|].
  rewrite not_elem_of_cons. intros [Hne Hd].
  destruct (String.eqb_spec k' k); [congruence|]. now rewrite IH.
Qed.

Lemma dict_get_Some d k v : NoDup (keys d) -> (k, v) ∈ d -> dict_get d k = Some v.
Proof.
  induction d as [|[k' v'] d IH]; simpl.
  - intros _ H. inversion H.
  - rewrite NoDup_cons, elem_of_cons. intros [Hk Hd] [[= -> ->]|Hin].
    + now rewrite String.eqb_refl.
    + destruct (String.eqb_spec k' k) as [->|Hne]; [|auto].
      exfalso. apply Hk. unfold keys. apply list_elem_of_fmap.
      now exists (k, v).
Qed.

Lemma dict_get_elem d k v : dict_get d k = Some v -> (k, v) ∈ d.
Proof.
  induction d as [|[k' v'] d IH]; simpl; [discriminate|].
  destruct (String.eqb_spec k' k) as [->|Hne].
  - intros [= ->]. apply elem_of_cons. now left.
  - intros H. apply elem_of_cons. right. auto.
Qed.

Lemma dict_mem_keys d k : dict_mem d k = true <-> k ∈ keys d.
Proof.
  unfold dict_mem. split.
  - destruct (dict_get d k) as [v|] eqn:E; [|discriminate]. intros _.
    apply dict_get_elem in E. unfold keys. apply list_elem_of_fmap.
    now exists (k, v).
  - intros H. destruct (dict_get d k) eqn:E; [reflexivity|].
    exfalso. revert H E. induction d as [|[k' v'] d IH]; simpl.
    + intros H. inversion H.
    + rewrite elem_of_cons. destruct (String.eqb_spec k' k); [discriminate|].
      intros [->|H]; [congruence|]. auto.
Qed.

Lemma filter_elem {A} (f : A -> bool) (l : list A) x :
  x ∈ List.filter f l <-> x ∈ l /\ f x = true.
Proof. rewrite !list_elem_of_In. apply filter_In. Qed.


(** ** The price-drop filter *)

Lemma price_drop_body_run thr acc s l w d :
  objs w !! l = Some d -> priced d ->
  price_drop_body thr acc (s, l) w =
  Ok (if retained (objs w) thr (s, l) then dict_set acc s l else acc,
      mkWorld (<[l := annotate d]> (objs w)) (log w)).
Proof.
  intros Hl Hp. unfold price_drop_body, retained, annotate, frame_drop. simpl.
  rewrite (bind_ok _ _ _ _ _ (load_ok _ _ _ Hl)). rewrite Hl.
  destruct (empty_frame d) eqn:He; simpl.
  - unfold ret. now rewrite list_insert_id, world_eta.
  - destruct Hp as [Hp|[a [b [Ha Hb]]]]; [congruence|].
    rewrite Ha, Hb. unfold close_at in Ha, Hb. rewrite Ha, Hb.
    unfold bind, lift, store, ret. simpl.
    now destruct (fle (price_drop_of a b) thr).
Qed.

Lemma for_each_cons {A S} (x : A) items (body : S -> A -> M S) acc w acc' w' :
  body acc x w = Ok (acc', w') ->
  for_each (x :: items) body acc w = for_each items body acc' w'.
Proof. intros H. simpl. now apply bind_ok. Qed.

Lemma retained_insert o thr l d item :
  snd item <> l -> retained (<[l := d]> o) thr item = retained o thr item.
Proof.
  intros Hne. unfold retained. now rewrite list_lookup_insert_ne.
Qed.

Lemma price_loop thr items : forall acc w,
  NoDup (keys items) -> NoDup (refs items) ->
  (forall k, k ∈ keys items -> k ∉ keys acc) ->
  (forall s l, (s, l) ∈ items -> exists d, objs w !! l = Some d /\ priced d) ->
  exists w',
    for_each items (price_drop_body thr) acc w
    = Ok (acc ++ List.filter (retained (objs w) thr) items, w')
    /\ log w' = log w
    /\ forall l, objs w' !! l =
                 if bool_decide (l ∈ refs items)
                 then annotate <$> objs w !! l else objs w !! l.
Proof.
  induction items as [|[s l] items IH]; intros acc w Hk Hr Hacc Hw.
  - exists w. simpl. unfold ret. rewrite app_nil_r. auto.
  - simpl in Hk, Hr. apply NoDup_cons in Hk as [Hs Hk].
    apply NoDup_cons in Hr as [Hl Hr].
    destruct (Hw s l) as [d [Hd Hp]]; [apply elem_of_cons; now left|].
    rewrite (for_each_cons _ _ _ _ _ _ _ (price_drop_body_run thr acc s l w d Hd Hp)).
    set (w1 := mkWorld (<[l := annotate d]> (objs w)) (log w)).
    set (acc1 := if retained (objs w) thr (s, l) then dict_set acc s l else acc).
    assert (Hacc1 : acc1 = acc ++ (if retained (objs w) thr (s, l) then [(s, l)] else [])).
    { unfold acc1. destruct (retained (objs w) thr (s, l)).
      - apply dict_set_fresh. apply Hacc. apply elem_of_cons. now left.
      - now rewrite app_nil_r. }
    destruct (IH acc1 w1) as [w' [Hrun [Hlog Hobjs]]]; auto.
    + intros k Hin. rewrite Hacc1. unfold keys. rewrite fmap_app.
      rewrite elem_of_app. intros [Hin'|Hin'].
      * eapply Hacc; [|exact Hin']. apply elem_of_cons. now right.
      * destruct (retained (objs w) thr (s, l)); simpl in Hin'.
        -- apply list_elem_of_singleton in Hin'. subst k. contradiction.
        -- inversion Hin'.
    + intros s' l' Hin. destruct (Hw s' l') as [d' [Hd' Hp']].
      { apply elem_of_cons. now right. }
      exists d'. split; [|exact Hp']. simpl.
      rewrite list_lookup_insert_ne; [exact Hd'|].
      intros ->. apply Hl. unfold refs. apply list_elem_of_fmap. now exists (s', l').
    + exists w'. split; [|split].
      * rewrite Hrun.
        assert (Hf : List.filter (retained (objs w1) thr) items
                     = List.filter (retained (objs w) thr) items).
        { apply filter_ext_in. intros [s' l'] Hin. simpl.
          apply retained_insert. simpl. intros ->. apply Hl.
          unfold refs. apply list_elem_of_fmap. exists (s', l).
          split; [reflexivity|]. now apply list_elem_of_In. }
        rewrite Hf, Hacc1, <- app_assoc. simpl.
        now destruct (retained (objs w) thr (s, l)).
      * now rewrite Hlog.
      * intros l0. rewrite Hobjs. simpl.
        destruct (decide (l0 = l)) as [->|Hne].
        -- rewrite (bool_decide_eq_false_2 _ Hl).
           rewrite (bool_decide_eq_true_2 (l ∈ l :: refs items));
             [|apply elem_of_cons; now left].
           rewrite list_lookup_insert_eq; [now rewrite Hd|].
           now apply lookup_lt_Some in Hd.
        -- rewrite list_lookup_insert_ne by congruence.
           destruct (bool_decide (l0 ∈ refs items)) eqn:E.
           ++ apply bool_decide_eq_true_1 in E.
              rewrite bool_decide_eq_true_2; [reflexivity|].
              apply elem_of_cons. now right.
           ++ apply bool_decide_eq_false_1 in E.
              rewrite bool_decide_eq_false_2; [reflexivity|].
              rewrite elem_of_cons. intros [?|?]; auto.
Qed.

Lemma Qzero_false (q : Q) : ~ (q == 0)%Q -> Qzero q = false.
Proof.
  intros H. unfold Qzero. destruct (Qeq_bool q 0) eqn:E; [|reflexivity].
  apply Qeq_bool_iff in E. contradiction.
Qed.







(** ** Empty series *)

Lemma price_drop_body_empty thr acc s l w d :
  objs w !! l = Some d -> empty_frame d = true ->
  price_drop_body thr acc (s, l) w = Ok (acc, w).
Proof.
  intros Hl He. unfold price_drop_body.
  rewrite (bind_ok _ _ _ _ _ (load_ok _ _ _ Hl)). now rewrite He.
Qed.

(** C9.  On a mapping from symbols to price series the filter returns
    (it raises nothing); a symbol whose series is empty is not in the
    output and its series is left as it was.  The loop body reads no cell
    of an empty series: on one it returns at once, whatever its columns. *)
Theorem price_drop_filter_skips_empty (w : world) (prices : pydict) (thr : fval) :
  NoDup (keys prices) -> NoDup (refs prices) ->
  (forall s l, (s, l) ∈ prices -> exists d, objs w !! l = Some d /\ priced d) ->
  (exists out w',
     filter_by_price_drop prices thr w = Ok (out, w')
     /\ forall s l d,
          (s, l) ∈ prices -> objs w !! l = Some d -> empty_frame d = true ->
          (s ∉ keys out) /\ objs w' !! l = Some d)
  /\ (forall acc s l d w0,
        objs w0 !! l = Some d -> empty_frame d = true ->
        price_drop_body thr acc (s, l) w0 = Ok (acc, w0)).
Proof.
  intros Hk Hr Hw. split.
  - destruct (price_loop thr prices [] w Hk Hr) as [w' [Hrun [_ Hobjs]]]; auto.
    { intros k _ H. inversion H. }
    exists (List.filter (retained (objs w) thr) prices), w'.
    split; [exact Hrun|]. intros s l d Hin Hd He. split.
    + unfold keys. rewrite list_elem_of_fmap. intros [[s' l'] [Hs Hin']].
      simpl in Hs. subst s'. apply filter_elem in Hin' as [Hin' Hret].
      assert (l' = l) as ->.
      { pose proof (dict_get_Some _ _ _ Hk Hin) as E1.
        pose proof (dict_get_Some _ _ _ Hk Hin') as E2. congruence. }
      unfold retained, frame_drop in Hret. simpl in Hret.
      rewrite Hd, He in Hret. discriminate.
    + rewrite Hobjs. rewrite Hd.
      destruct (bool_decide (l ∈ refs prices)); [|reflexivity].
      simpl. unfold annotate, frame_drop. now rewrite He.
  - intros acc s l d w0. apply price_drop_body_empty.
Qed.

Lemma price_drop_filter_skips_empty_witness :
  exists out w',
    filter_by_price_drop [("DOWN", 0%nat); ("NONE", 1%nat)] (Fin 50) mixed_world
    = Ok (out, w')
    /\ ("NONE" ∉ keys out) /\ objs w' !! 1%nat = Some empty_series.
Proof.
  destruct (price_drop_filter_skips_empty mixed_world
              [("DOWN", 0%nat); ("NONE", 1%nat)] (Fin 50))
    as [[out [w' [Hrun Hout]]] _].
  - nodup_list.
  - nodup_list.
  - intros s l H. apply elem_of_cons in H as [H|H].
    + injection H as -> ->. exists falling_series. split; [reflexivity|].
      right. exists (Fin 100), (Fin 80). split; reflexivity.
    + apply list_elem_of_singleton in H. injection H as -> ->.
      exists empty_series. split; [reflexivity|]. now left.
  - exists out, w'. split; [exact Hrun|].
    apply (Hout "NONE" 1%nat empty_series); [|reflexivity|reflexivity].
    apply elem_of_cons. right. apply elem_of_cons. now left.
Defined.

(** ** Case-insensitive search *)

Lemma prefix_ci_spec pat : forall s,
  prefix_ci pat s = true <->
  exists suf : string, lower s = (lower pat ++ suf)%string.
Proof.
  induction pat as [|a pat IH]; intros s; simpl.
  - split; [intros _; now exists (lower s)|reflexivity].
  - destruct s as [|b s]; simpl.
    + split; [discriminate|]. intros [suf H]. discriminate.
    + rewrite andb_true_iff, Ascii.eqb_eq, IH. split.
      * intros [-> [suf ->]]. now exists suf.
      * intros [suf [= -> ->]]. split; [reflexivity|now exists suf].
Qed.

Lemma contains_ci_spec pat s : contains_ci pat s = true <-> ci_substring pat s.
Proof.
  unfold ci_substring. induction s as [|c s IH].
  - simpl. rewrite orb_false_r, prefix_ci_spec. simpl. split.
    + intros [suf H]. now exists ""%string, suf.
    + intros [[|x pre] [suf H]]; [now exists suf|discriminate].
  - cbn [contains_ci]. rewrite orb_true_iff, IH, prefix_ci_spec. split.
    + intros [[suf H]|[pre [suf H]]].
      * now exists ""%string, suf.
      * exists (String (lower_ascii c) pre), suf. simpl. now rewrite H.
    + intros [[|x pre] [suf H]].
      * left. now exists suf.
      * right. simpl in H. injection H as _ H. now exists pre, suf.
Qed.

Lemma ceo_buy_spec owner type :
  ceo_buy (Str owner) (Str type) = true <-> insider_buy owner type.
Proof.
  unfold ceo_buy, insider_buy, str_contains, cell_eq_str.
  rewrite andb_true_iff, !orb_true_iff, !contains_ci_spec, String.eqb_eq.
  tauto.
Qed.

Lemma ceo_buy_text o t :
  ceo_buy o t = true -> exists owner type, o = Str owner /\ t = Str type.
Proof.
  unfold ceo_buy. rewrite andb_true_iff. intros [Ho Ht].
  destruct t; try discriminate. destruct o; try discriminate. eauto.
Qed.

Lemma row_mask_spec d r : row_mask d r = true <-> qualifying_row d r.
Proof.
  unfold row_mask, qualifying_row. split.
  - destruct (series_get _ "typeOfOwner") as [o|]; [|discriminate].
    destruct (series_get _ "transactionType") as [t|]; [|discriminate].
    intros H. destruct (ceo_buy_text _ _ H) as [owner [type [-> ->]]].
    exists owner, type. now rewrite <- ceo_buy_spec.
  - intros [owner [type [-> [-> H]]]]. now apply ceo_buy_spec.
Qed.

(** ** The insider-buy filter *)

Lemma rbind_inv {A B} (r : result A) (k : A -> result B) b :
  rbind r k = Ok b -> exists a, r = Ok a /\ k a = Ok b.
Proof. destruct r; simpl; [eauto|discriminate]. Qed.

Lemma select_mask (d : DataFrame) i j : forall rows owners types,
  locate "typeOfOwner" (columns d) = Ok i ->
  locate "transactionType" (columns d) = Ok j ->
  traverse (fun r => cell_at r i) rows = Ok owners ->
  traverse (fun r => cell_at r j) rows = Ok types ->
  select rows (zip_mask owners types) = List.filter (row_mask d) rows.
Proof.
  intros rows owners types Hi Hj. revert owners types.
  induction rows as [|r rows IH]; intros owners types Ho Ht; simpl in *.
  - injection Ho as <-. reflexivity.
  - apply rbind_inv in Ho as [o [Ho Ho']].
    apply rbind_inv in Ho' as [os [Hos [= <-]]].
    apply rbind_inv in Ht as [t [Ht Ht']].
    apply rbind_inv in Ht' as [ts [Hts [= <-]]].
    simpl. rewrite (IH os ts Hos Hts).
    unfold row_mask, series_get. simpl. now rewrite Hi, Hj; simpl; rewrite Ho, Ht.
Qed.

Lemma ceo_buys_of_spec d b :
  ceo_buys_of d = Ok b ->
  columns b = columns d /\ data b = List.filter (row_mask d) (data d).
Proof.
  unfold ceo_buys_of, getitem. intros H.
  apply rbind_inv in H as [owners [Ho H]].
  apply rbind_inv in H as [types [Ht [= <-]]].
  apply rbind_inv in Ho as [i [Hi Ho]].
  apply rbind_inv in Ht as [j [Hj Ht]].
  split; [reflexivity|]. simpl. eapply select_mask; eauto.
Qed.

Lemma locate_nonempty name labels i : locate name labels = Ok i -> labels <> [].
Proof. intros H ->. discriminate. Qed.

Lemma ceo_buys_nonempty d b :
  ceo_buys_of d = Ok b ->
  (empty_frame b = false <-> exists r, r ∈ data d /\ qualifying_row d r).
Proof.
  intros H. destruct (ceo_buys_of_spec d b H) as [Hc Hd].
  unfold ceo_buys_of, getitem in H.
  apply rbind_inv in H as [owners [Ho _]].
  apply rbind_inv in Ho as [i [Hi _]]. apply locate_nonempty in Hi.
  unfold empty_frame. rewrite Hc, Hd.
  destruct (columns d) as [|c cs]; [congruence|].
  destruct (List.filter (row_mask d) (data d)) as [|r rs] eqn:E.
  - split; [discriminate|]. intros [r [Hr Hq]]. exfalso.
    assert (Hin : r ∈ List.filter (row_mask d) (data d)).
    { apply filter_elem. split; [exact Hr|]. now apply row_mask_spec. }
    rewrite E in Hin. inversion Hin.
  - split; [|reflexivity]. intros _. exists r.
    assert (Hin : r ∈ List.filter (row_mask d) (data d)).
    { rewrite E. apply elem_of_cons. now left. }
    apply filter_elem in Hin as [Hr Hm]. split; [exact Hr|].
    now apply row_mask_spec.
Qed.

Lemma ceo_buys_body_run acc s l w d b :
  objs w !! l = Some d -> ceo_buys_of d = Ok b ->
  ceo_buys_body acc (s, l) w =
  if empty_frame b then Ok (acc, w)
  else Ok (dict_set acc s (List.length (objs w)),
           mkWorld (objs w ++ [b]) (log w)).
Proof.
  intros Hl Hb. unfold ceo_buys_body.
  rewrite (bind_ok _ _ _ _ _ (load_ok _ _ _ Hl)).
  rewrite (bind_ok _ _ _ _ _ (lift_ok _ _ _ Hb)).
  now destruct (empty_frame b).
Qed.

Lemma keys_app (a b : pydict) : keys (a ++ b) = keys a ++ keys b.
Proof. unfold keys. apply map_app. Qed.

Lemma elem_keys (d : pydict) s l : (s, l) ∈ d -> s ∈ keys d.
Proof. intros H. unfold keys. apply list_elem_of_fmap. now exists (s, l). Qed.

Lemma ceo_loop items : forall acc w,
  NoDup (keys items) ->
  (forall k, k ∈ keys items -> k ∉ keys acc) ->
  (forall s l, (s, l) ∈ items -> exists d, objs w !! l = Some d /\ traded d) ->
  exists out new,
    for_each items ceo_buys_body acc w
    = Ok (acc ++ out, mkWorld (objs w ++ new) (log w))
    /\ (forall s, s ∈ keys out -> s ∈ keys items)
    /\ (forall s l d,
          (s, l) ∈ items -> objs w !! l = Some d ->
          (s ∈ keys out <-> exists b, ceo_buys_of d = Ok b /\ empty_frame b = false))
    /\ (forall s l',
          (s, l') ∈ out ->
          exists l d b,
            (s, l) ∈ items /\ objs w !! l = Some d /\ ceo_buys_of d = Ok b
            /\ empty_frame b = false /\ (objs w ++ new) !! l' = Some b).
Proof.
  induction items as [|[s l] items IH]; intros acc w Hk Hacc Hw.
  - exists [], []. simpl. unfold ret. rewrite !app_nil_r, world_eta.
    split; [reflexivity|]. split; [auto|]. split.
    + intros s l d H. inversion H.
    + intros s l' H. inversion H.
  - simpl in Hk. apply NoDup_cons in Hk as [Hs Hk].
    destruct (Hw s l) as [d [Hd Ht]]; [apply elem_of_cons; now left|].
    assert (Hb : exists b, ceo_buys_of d = Ok b).
    { destruct Ht as [owners [types [Ho Hty]]]. unfold ceo_buys_of.
      rewrite Ho, Hty. simpl. eauto. }
    destruct Hb as [b Hb].
    pose proof (ceo_buys_body_run acc s l w d b Hd Hb) as Hrun.
    destruct (empty_frame b) eqn:He.
    + rewrite (for_each_cons _ _ _ _ _ _ _ Hrun).
      destruct (IH acc w) as [out [new [Hfor [H1 [H2 H3]]]]]; auto.
      { intros k Hin. apply Hacc. apply elem_of_cons. now right. }
      { intros s' l' Hin. apply (Hw s' l'). apply elem_of_cons. now right. }
      exists out, new. split; [exact Hfor|]. split; [|split].
      * intros s' Hin. apply elem_of_cons. right. auto.
      * intros s' l' d' Hin Hd'. apply elem_of_cons in Hin as [[= -> ->]|Hin].
        -- split.
           ++ intros Hin. apply H1 in Hin. contradiction.
           ++ intros [b' [Hb' He']]. congruence.
        -- eapply H2; eauto.
      * intros s' l' Hin. destruct (H3 s' l' Hin) as [l0 [d0 [b0 [Hi H]]]].
        exists l0, d0, b0. split; [apply elem_of_cons; now right|exact H].
    + rewrite (for_each_cons _ _ _ _ _ _ _ Hrun).
      set (l0 := List.length (objs w)).
      set (w1 := mkWorld (objs w ++ [b]) (log w)).
      assert (Hset : dict_set acc s l0 = acc ++ [(s, l0)]).
      { apply dict_set_fresh. apply Hacc. apply elem_of_cons. now left. }
      assert (Hstable : forall l' d', objs w !! l' = Some d' ->
                                      objs w1 !! l' = Some d').
      { intros l' d' H. simpl. now apply lookup_app_l_Some. }
      destruct (IH (dict_set acc s l0) w1) as [out [new [Hfor [H1 [H2 H3]]]]]; auto.
      { intros k Hin. rewrite Hset, keys_app, elem_of_app. intros [Hin'|Hin'].
        - eapply Hacc; [|exact Hin']. apply elem_of_cons. now right.
        - simpl in Hin'. apply list_elem_of_singleton in Hin'. congruence. }
      { intros s' l' Hin. destruct (Hw s' l') as [d' [Hd' Ht']].
        { apply elem_of_cons. now right. }
        exists d'. split; [now apply Hstable|exact Ht']. }
      exists ((s, l0) :: out), (b :: new). split; [|split; [|split]].
      * rewrite Hfor, Hset. simpl. now rewrite <- !app_assoc.
      * intros s' Hin. simpl in Hin. apply elem_of_cons in Hin as [->|Hin].
        -- apply elem_of_cons. now left.
        -- apply elem_of_cons. right. auto.
      * intros s' l' d' Hin Hd'. simpl.
        apply elem_of_cons in Hin as [[= -> ->]|Hin].
        -- split.
           ++ intros _. exists b. split; congruence.
           ++ intros _. apply elem_of_cons. now left.
        -- rewrite elem_of_cons. rewrite <- (H2 s' l' d' Hin (Hstable _ _ Hd')).
           split; [|auto]. intros [->|H]; [|exact H].
           exfalso. apply Hs. eapply elem_keys; eauto.
      * intros s' l' Hin. apply elem_of_cons in Hin as [[= -> ->]|Hin].
        -- exists l, d, b. split; [apply elem_of_cons; now left|].
           split; [exact Hd|]. split; [exact Hb|]. split; [exact He|].
           unfold l0. rewrite lookup_app_r by lia.
           now rewrite Nat.sub_diag.
        -- destruct (H3 s' l' Hin) as [l1 [d1 [b1 [Hi [Hd1 [Hb1 [He1 Hl1]]]]]]].
           exists l1, d1, b1. split; [apply elem_of_cons; now right|].
           destruct (Hw s' l1) as [d2 [Hd2 _]]; [apply elem_of_cons; now right|].
           pose proof (Hstable _ _ Hd2) as Hd2'. 
           assert (d1 = d2) as -> by congruence.
           split; [exact Hd2|]. split; [exact Hb1|]. split; [exact He1|].
           simpl in Hl1. now rewrite <- app_assoc in Hl1.
Qed.

(** C3.  On a mapping from symbols to transaction tables that carry the
    two columns, the insider-buy filter returns, and
    - a symbol is in the output exactly when one of its transactions
      qualifies: [transactionType] equal to "P-Purchase" and a
      [typeOfOwner] that contains, case ignored, "CEO", "CFO", "COO" or
      "director";
    - the table stored for a surviving symbol holds exactly its qualifying
      transactions, in their order;
    - the boolean mask of the code is that predicate;
    - ("Senior Director of Engineering", "P-Purchase") matches,
      ("Vice President", "P-Purchase") and ("CEO", "S-Sale") do not. *)
Theorem insider_buy_filter_retains (w : world) (trades : pydict) :
  NoDup (keys trades) ->
  (forall s l, (s, l) ∈ trades -> exists d, objs w !! l = Some d /\ traded d) ->
  (exists out w',
     filter_by_ceo_buys trades w = Ok (out, w')
     /\ (forall s,
           s ∈ keys out <->
           exists l d r, (s, l) ∈ trades /\ objs w !! l = Some d
                         /\ r ∈ data d /\ qualifying_row d r)
     /\ (forall s l',
           (s, l') ∈ out ->
           exists l d b,
             (s, l) ∈ trades /\ objs w !! l = Some d
             /\ objs w' !! l' = Some b
             /\ columns b = columns d
             /\ data b = List.filter (row_mask d) (data d)
             /\ forall r, r ∈ data b <-> r ∈ data d /\ qualifying_row d r))
  /\ (forall owner type,
        ceo_buy (Str owner) (Str type) = true <-> insider_buy owner type)
  /\ (insider_buy "Senior Director of Engineering" "P-Purchase"
      /\ ~ insider_buy "Vice President" "P-Purchase"
      /\ ~ insider_buy "CEO" "S-Sale").
Proof.
  intros Hk Hw. split; [|split].
  - destruct (ceo_loop trades [] w Hk) as [out [new [Hfor [H1 [H2 H3]]]]]; auto.
    { intros k _ H. inversion H. }
    exists out, (mkWorld (objs w ++ new) (log w)).
    split; [exact Hfor|]. split.
    + intros s. split.
      * intros Hin. pose proof (H1 s Hin) as Hs.
        unfold keys in Hs. apply list_elem_of_fmap in Hs as [[s' l] [Hs Hi]].
        simpl in Hs. subst s'. destruct (Hw s l Hi) as [d [Hd _]].
        apply (H2 s l d Hi Hd) in Hin as [b [Hb He]].
        apply (ceo_buys_nonempty d b Hb) in He as [r [Hr Hq]].
        now exists l, d, r.
      * intros [l [d [r [Hi [Hd [Hr Hq]]]]]]. apply (H2 s l d Hi Hd).
        destruct (Hw s l Hi) as [d' [Hd' [owners [types [Ho Ht]]]]].
        assert (d' = d) as -> by congruence.
        assert (Hb : exists b, ceo_buys_of d = Ok b).
        { unfold ceo_buys_of. rewrite Ho, Ht. simpl. eauto. }
        destruct Hb as [b Hb]. exists b. split; [exact Hb|].
        apply (ceo_buys_nonempty d b Hb). eauto.
    + intros s l' Hin. destruct (H3 s l' Hin) as [l [d [b [Hi [Hd [Hb [_ Hl]]]]]]].
      exists l, d, b. destruct (ceo_buys_of_spec d b Hb) as [Hc Hdat].
      repeat (split; [assumption|]). intros r. rewrite Hdat, filter_elem.
      now rewrite row_mask_spec.
  - apply ceo_buy_spec.
  - split; [now apply ceo_buy_spec|].
    split; intros H; apply ceo_buy_spec in H; discriminate H.
Qed.

Lemma insider_buy_filter_retains_witness :
  exists out w',
    filter_by_ceo_buys [("ABC", 0%nat); ("XYZ", 1%nat)] trades_world
    = Ok (out, w')
    /\ "ABC" ∈ keys out.
Proof.
  destruct (insider_buy_filter_retains trades_world
              [("ABC", 0%nat); ("XYZ", 1%nat)])
    as [[out [w' [Hrun [Hout _]]]] _].
  - nodup_list.
  - intros s l H. apply elem_of_cons in H as [H|H].
    + injection H as -> ->. exists trades_example. split; [reflexivity|].
      eexists _, _. split; reflexivity.
    + apply list_elem_of_singleton in H. injection H as -> ->.
      exists no_buys_example. split; [reflexivity|].
      eexists _, _. split; reflexivity.
  - exists out, w'. split; [exact Hrun|]. apply Hout.
    exists 0%nat, trades_example,
      [Str "Senior Director of Engineering"; Str "P-Purchase"].
    split; [apply elem_of_cons; now left|]. split; [reflexivity|].
    split; [apply elem_of_cons; now left|].
    apply row_mask_spec. reflexivity.
Defined.

(** ** The normalizer *)

Lemma fill_row_complete r : forall prev,
  complete_row r = true -> fill_row prev r = r.
Proof.
  induction r as [|c r IH]; intros [|p prev] H; simpl in *; try reflexivity.
  apply andb_true_iff in H as [Hc Hr].
  destruct (isna c); [discriminate|]. now rewrite IH.
Qed.

Lemma ffill_from_complete rows : forall prev,
  (forall r, In r rows -> complete_row r = true) ->
  ffill_from prev rows = rows.
Proof.
  induction rows as [|r rows IH]; intros prev H; simpl; [reflexivity|].
  rewrite fill_row_complete by (apply H; now left).
  rewrite IH; [reflexivity|]. intros r' Hr'. apply H. now right.
Qed.

Lemma ffill_dropna d : ffill (dropna d) = dropna d.
Proof.
  unfold ffill, dropna. simpl. f_equal.
  destruct (List.filter complete_row (data d)) as [|r rows] eqn:E; [reflexivity|].
  rewrite ffill_from_complete; [reflexivity|].
  intros r' Hr'. assert (Hin : In r' (List.filter complete_row (data d))).
  { rewrite E. now right. }
  now apply filter_In in Hin.
Qed.

(** C7.  After the infinities are replaced and the rows with a missing
    value are dropped, forward-fill changes nothing: the normalizer and the
    normalizer without its forward-fill step give the same result on every
    table, whatever the date and number parsers. *)
Theorem ffill_after_dropna_is_noop
        (parse_datetime : string -> option Z)
        (datetime_of_number : fval -> option Z)
        (parse_number : string -> fval) (df : DataFrame) :
  standardize_ohlcv_dataframe parse_datetime datetime_of_number parse_number df
  = standardize_without_ffill parse_datetime datetime_of_number parse_number df.
Proof.
  unfold standardize_ohlcv_dataframe, standardize_without_ffill.
  destruct (convert_date _ _ _) as [d|e]; simpl; [|reflexivity].
  now rewrite ffill_dropna.
Qed.

(** ** Labels and cells of a frame *)

Lemma positions_sound name labels : forall k i,
  In i (positions name labels k) ->
  (k <= i)%nat /\ nth_error labels (i - k) = Some name.
Proof.
  induction labels as [|l labels IH]; intros k i H; simpl in H; [contradiction|].
  destruct (String.eqb_spec l name) as [->|Hne].
  - destruct H as [<-|H].
    + rewrite Nat.sub_diag. split; [lia|reflexivity].
    + apply IH in H as [Hle Hn]. split; [lia|].
      replace (i - k)%nat with (S (i - S k)) by lia. exact Hn.
  - apply IH in H as [Hle Hn]. split; [lia|].
    replace (i - k)%nat with (S (i - S k)) by lia. exact Hn.
Qed.

Lemma positions_complete name labels : forall k j,
  nth_error labels j = Some name -> In (j + k)%nat (positions name labels k).
Proof.
  induction labels as [|l labels IH]; intros k j H.
  - destruct j; discriminate.
  - simpl. destruct j as [|j]; simpl in H.
    + injection H as ->. rewrite String.eqb_refl. now left.
    + apply (IH (S k)) in H. replace (S j + k)%nat with (j + S k)%nat by lia.
      destruct (String.eqb l name); [now right|exact H].
Qed.

Lemma positions_app name a b : forall k,
  positions name (a ++ b) k
  = positions name a k ++ positions name b (k + List.length a).
Proof.
  induction a as [|l a IH]; intros k; simpl.
  - now rewrite Nat.add_0_r.
  - rewrite IH. replace (S k + List.length a)%nat with (k + S (List.length a))%nat by lia.
    now destruct (String.eqb l name).
Qed.

Lemma locate_inv name labels i :
  locate name labels = Ok i -> positions name labels 0 = [i].
Proof.
  unfold locate. destruct (positions name labels 0) as [|j [|? ?]];
    try discriminate. now intros [= ->].
Qed.

Lemma locate_nth name labels i :
  locate name labels = Ok i -> nth_error labels i = Some name.
Proof.
  intros H. apply locate_inv in H.
  destruct (positions_sound name labels 0 i) as [_ Hn].
  { rewrite H. now left. }
  now rewrite Nat.sub_0_r in Hn.
Qed.

Lemma locate_unique name labels i j :
  locate name labels = Ok i -> nth_error labels j = Some name -> j = i.
Proof.
  intros H Hj. apply locate_inv in H.
  apply (positions_complete name labels 0) in Hj. rewrite H in Hj.
  destruct Hj as [Hj|[]]. lia.
Qed.

Lemma has_label_nth name labels :
  has_label name labels = true <-> exists j, nth_error labels j = Some name.
Proof.
  unfold has_label. rewrite existsb_exists. split.
  - intros [x [Hin Hx]]. apply String.eqb_eq in Hx. subst x.
    now apply In_nth_error in Hin.
  - intros [j Hj]. exists name. split; [|apply String.eqb_refl].
    eapply nth_error_In; eauto.
Qed.

Lemma locate_has_label name labels i :
  locate name labels = Ok i -> has_label name labels = true.
Proof. intros H. apply has_label_nth. exists i. now apply locate_nth. Qed.

Lemma NoDup_nth_eq (labels : list string) i j x :
  NoDup labels -> nth_error labels i = Some x -> nth_error labels j = Some x ->
  i = j.
Proof.
  intros Hnd Hi Hj. apply NoDup_ListNoDup in Hnd.
  rewrite List.NoDup_nth_error in Hnd. apply Hnd.
  - apply nth_error_Some. congruence.
  - congruence.
Qed.

Lemma locate_NoDup name labels j :
  NoDup labels -> nth_error labels j = Some name -> locate name labels = Ok j.
Proof.
  intros Hnd Hj. unfold locate.
  pose proof (positions_complete name labels 0 j Hj) as Hin.
  rewrite Nat.add_0_r in Hin.
  assert (Hall : forall i, In i (positions name labels 0) -> i = j).
  { intros i Hi. apply positions_sound in Hi as [_ Hi].
    rewrite Nat.sub_0_r in Hi. eapply NoDup_nth_eq; eauto. }
  assert (Hnd' : List.NoDup (positions name labels 0)).
  { clear. generalize 0%nat. induction labels as [|l labels IH]; intros k; simpl.
    - constructor.
    - destruct (String.eqb l name); [|apply IH].
      constructor; [|apply IH]. intros H. apply positions_sound in H. lia. }
  destruct (positions name labels 0) as [|a [|b rest]].
  - contradiction.
  - f_equal. apply Hall. now left.
  - exfalso. inversion Hnd' as [|? ? Hna _]; subst. apply Hna.
    rewrite (Hall a), (Hall b); [now left|right; now left|now left].
Qed.

Lemma locate_absent name labels :
  has_label name labels = false -> locate name labels = Raise KeyError.
Proof.
  intros H. unfold locate.
  destruct (positions name labels 0) as [|i rest] eqn:E; [reflexivity|].
  exfalso. destruct (positions_sound name labels 0 i) as [_ Hn].
  { rewrite E. now left. }
  assert (has_label name labels = true) by (apply has_label_nth; eauto).
  congruence.
Qed.

Lemma assign_other name v labels : forall r j m,
  nth_error labels j = Some m -> m <> name ->
  nth_error (assign name v labels r) j = nth_error r j.
Proof.
  induction labels as [|l labels IH]; intros r j m Hj Hne.
  - destruct j; discriminate.
  - destruct r as [|c r]; [reflexivity|]. destruct j as [|j]; simpl in *.
    + injection Hj as ->. destruct (String.eqb_spec m name); congruence.
    + eapply IH; eauto.
Qed.

Lemma assign_at name v labels : forall r j,
  nth_error labels j = Some name -> (j < List.length r)%nat ->
  nth_error (assign name v labels r) j = Some v.
Proof.
  induction labels as [|l labels IH]; intros r j Hj Hlen.
  - destruct j; discriminate.
  - destruct r as [|c r]; [simpl in Hlen; lia|]. destruct j as [|j]; simpl in *.
    + injection Hj as ->. now rewrite String.eqb_refl.
    + apply IH; [exact Hj|lia].
Qed.

Lemma assign_length name v labels : forall r,
  List.length (assign name v labels r) = List.length r.
Proof.
  induction labels as [|l labels IH]; intros [|c r]; simpl; auto.
Qed.

Lemma assign_own name v labels : forall r,
  (forall j, nth_error labels j = Some name -> nth_error r j = Some v) ->
  assign name v labels r = r.
Proof.
  induction labels as [|l labels IH]; intros [|c r] H; simpl; try reflexivity.
  rewrite IH by (intros j Hj; apply (H (S j) Hj)).
  destruct (String.eqb_spec l name) as [->|Hne]; [|reflexivity].
  specialize (H 0%nat eq_refl). simpl in H. congruence.
Qed.

Lemma traverse_inv {A B} (f : A -> result B) a l bs :
  traverse f (a :: l) = Ok bs ->
  exists b bs', f a = Ok b /\ traverse f l = Ok bs' /\ bs = b :: bs'.
Proof.
  simpl. intros H. apply rbind_inv in H as [b [Hb H]].
  apply rbind_inv in H as [bs' [Hbs [= <-]]]. eauto.
Qed.

Lemma traverse_ok {A B} (f : A -> result B) (g : A -> B) l :
  (forall a, In a l -> f a = Ok (g a)) -> traverse f l = Ok (List.map g l).
Proof.
  induction l as [|a l IH]; intros H; simpl; [reflexivity|].
  rewrite (H a) by now left. simpl. rewrite IH; [reflexivity|].
  intros a' Ha'. apply H. now right.
Qed.

Lemma traverse_length {A B} (f : A -> result B) l : forall bs,
  traverse f l = Ok bs -> List.length bs = List.length l.
Proof.
  induction l as [|a l IH]; intros bs H.
  - injection H as <-. reflexivity.
  - apply traverse_inv in H as [b [bs' [_ [H ->]]]]. simpl. f_equal. auto.
Qed.

Lemma traverse_ext {A B} (f g : A -> result B) l :
  (forall a, In a l -> f a = g a) -> traverse f l = traverse g l.
Proof.
  induction l as [|a l IH]; intros H; simpl; [reflexivity|].
  rewrite (H a) by now left. rewrite IH; [reflexivity|].
  intros a' Ha'. apply H. now right.
Qed.

(** Writing back into a column the values it holds changes nothing. *)
Lemma set_rows_own name labels i : forall rows col,
  locate name labels = Ok i ->
  traverse (fun r => cell_at r i) rows = Ok col ->
  set_rows name labels rows col = Ok rows.
Proof.
  intros rows col Hi. revert col.
  induction rows as [|r rows IH]; intros col H.
  - injection H as <-. reflexivity.
  - apply traverse_inv in H as [c [col' [Hc [H ->]]]]. simpl.
    rewrite (IH col' H). simpl. f_equal. f_equal.
    unfold set_cell. rewrite (locate_has_label _ _ _ Hi).
    apply assign_own. intros j Hj.
    rewrite (locate_unique _ _ _ _ Hi Hj).
    unfold cell_at in Hc. destruct (nth_error r i); congruence.
Qed.

Lemma frame_eta d : mkDF (columns d) (data d) = d.
Proof. now destruct d. Qed.

Lemma setitem_column_own d name col :
  getitem d name = Ok col -> setitem_column d name col = Ok d.
Proof.
  unfold getitem, setitem_column. intros H.
  apply rbind_inv in H as [i [Hi H]].
  rewrite (set_rows_own name (columns d) i _ _ Hi H). simpl.
  unfold add_label. rewrite (locate_has_label _ _ _ Hi).
  now rewrite frame_eta.
Qed.

Section NormalizerFacts.

Variable parse_datetime : string -> option Z.
Variable datetime_of_number : fval -> option Z.
Variable parse_number : string -> fval.

Let standardize :=
  standardize_ohlcv_dataframe parse_datetime datetime_of_number parse_number.
Let to_date := to_datetime parse_datetime datetime_of_number.
Let date_pass := convert_date parse_datetime datetime_of_number.
Let numeric_pass := numeric_columns parse_number.

Lemma to_numeric_numbers col :
  is_numeric_dtype col = true ->
  List.map (to_numeric parse_number) col = col.
Proof.
  induction col as [|c col IH]; simpl; [reflexivity|].
  rewrite andb_true_iff. intros [Hc Hcol].
  destruct c; try discriminate. simpl. now rewrite IH.
Qed.

Lemma numeric_step_id d column d' :
  numeric_step parse_number d column = Ok d' -> d' = d.
Proof.
  unfold numeric_step. destruct (locate column (columns d)); [|congruence].
  destruct (getitem d column) as [col|] eqn:Hcol; simpl; [|discriminate].
  destruct (is_numeric_dtype col) eqn:Hn; [|congruence].
  rewrite (to_numeric_numbers col Hn), (setitem_column_own d column col Hcol).
  congruence.
Qed.

Lemma numeric_columns_id labels : forall d d',
  numeric_pass labels d = Ok d' -> d' = d.
Proof.
  induction labels as [|c labels IH]; intros d d' H; simpl in H.
  - congruence.
  - apply rbind_inv in H as [d0 [H0 H]].
    apply numeric_step_id in H0. subst d0. now apply IH.
Qed.

Lemma to_date_stamp c : exists t, to_date c = Stamp t.
Proof. destruct c; simpl; eauto. Qed.

Lemma set_rows_column name labels i : forall rows vals rows',
  locate name labels = Ok i ->
  (forall r, In r rows -> (i < List.length r)%nat) ->
  set_rows name labels rows vals = Ok rows' ->
  traverse (fun r => cell_at r i) rows' = Ok vals.
Proof.
  intros rows vals rows' Hi. revert vals rows'.
  induction rows as [|r rows IH]; intros [|v vals] rows' Hlen H;
    simpl in H; try discriminate.
  - injection H as <-. reflexivity.
  - apply rbind_inv in H as [rs [Hrs [= <-]]]. simpl.
    unfold set_cell. rewrite (locate_has_label _ _ _ Hi).
    unfold cell_at at 1.
    rewrite (assign_at name v labels r i (locate_nth _ _ _ Hi));
      [|apply Hlen; now left]. simpl.
    rewrite (IH vals rs); [reflexivity| |exact Hrs].
    intros r' Hr'. apply Hlen. now right.
Qed.

Lemma traverse_cell_length i rows col :
  traverse (fun r => cell_at r i) rows = Ok col ->
  forall r, In r rows -> (i < List.length r)%nat.
Proof.
  revert col. induction rows as [|r rows IH]; intros col H r' Hr'.
  - contradiction.
  - apply traverse_inv in H as [c [col' [Hc [H _]]]].
    destruct Hr' as [<-|Hr']; [|eauto].
    unfold cell_at in Hc. apply nth_error_Some.
    destruct (nth_error r i); congruence.
Qed.

Lemma traverse_In {A B} (f : A -> result B) l : forall bs a,
  traverse f l = Ok bs -> In a l -> exists b, f a = Ok b /\ In b bs.
Proof.
  induction l as [|x l IH]; intros bs a H Ha; [contradiction|].
  apply traverse_inv in H as [b [bs' [Hb [H ->]]]].
  destruct Ha as [<-|Ha].
  - exists b. split; [exact Hb|now left].
  - destruct (IH bs' a H Ha) as [b' [Hb' Hin]]. exists b'.
    split; [exact Hb'|now right].
Qed.

Lemma traverse_stamps (rows : list (list cell)) i :
  (forall r, In r rows -> exists t, cell_at r i = Ok (Stamp t)) ->
  exists col, traverse (fun r => cell_at r i) rows = Ok col
              /\ List.map to_date col = col.
Proof.
  induction rows as [|r rows IH]; intros H.
  - now exists [].
  - destruct (H r) as [t Ht]; [now left|].
    destruct IH as [col [Hcol Hmap]]; [intros r' Hr'; apply H; now right|].
    exists (Stamp t :: col). simpl. rewrite Ht, Hcol. simpl.
    split; [reflexivity|]. now rewrite Hmap.
Qed.

Lemma replace_inf_cell_idem c :
  replace_inf_cell (replace_inf_cell c) = replace_inf_cell c.
Proof. destruct c as [[| | |]| | |]; reflexivity. Qed.

Lemma filter_idem {A} (f : A -> bool) l :
  List.filter f (List.filter f l) = List.filter f l.
Proof.
  induction l as [|a l IH]; simpl; [reflexivity|].
  destruct (f a) eqn:E; simpl; [rewrite E|]; now rewrite ?IH.
Qed.

Lemma map_fixed {A} (f : A -> A) l :
  (forall a, In a l -> f a = a) -> List.map f l = l.
Proof.
  induction l as [|a l IH]; intros H; simpl; [reflexivity|].
  rewrite (H a) by now left. rewrite IH; [reflexivity|].
  intros a' Ha'. apply H. now right.
Qed.

(** The steps between the renaming and the last loop. *)
Lemma cleaned_is_fixed d d' :
  date_pass d = Ok d' ->
  let d1 := dropna (replace_inf d') in
  columns d1 = columns d
  /\ date_pass d1 = Ok d1 /\ replace_inf d1 = d1 /\ dropna d1 = d1.
Proof.
  intros Hd d1.
  assert (Hrep : replace_inf d1 = d1).
  { unfold d1, replace_inf, dropna. simpl. f_equal. apply map_fixed.
    intros r Hr. apply filter_In in Hr as [Hr _].
    apply in_map_iff in Hr as [r0 [<- _]]. rewrite List.map_map.
    apply map_ext. intros c. apply replace_inf_cell_idem. }
  assert (Hdrop : dropna d1 = d1).
  { unfold d1, dropna, replace_inf. simpl. f_equal. apply filter_idem. }
  unfold date_pass, convert_date in Hd.
  destruct (has_label "date" (columns d)) eqn:Hl.
  - apply rbind_inv in Hd as [col [Hcol Hset]].
    pose proof Hcol as Hget. unfold getitem in Hcol.
    apply rbind_inv in Hcol as [i [Hi Hcol]].
    unfold setitem_column in Hset.
    apply rbind_inv in Hset as [rows' [Hrows [= <-]]].
    assert (Hc : columns d1 = columns d).
    { unfold d1. simpl. unfold add_label. now rewrite Hl. }
    split; [exact Hc|]. split; [|auto].
    pose proof (set_rows_column _ _ _ _ _ _ Hi
                  (traverse_cell_length _ _ _ Hcol) Hrows) as Hnew.
    destruct (traverse_stamps (data d1) i) as [col1 [Hcol1 Hmap]].
    { intros r Hr. unfold d1 in Hr. simpl in Hr.
      apply filter_In in Hr as [Hr _].
      apply in_map_iff in Hr as [r0 [<- Hr0]].
      destruct (traverse_In _ _ _ _ Hnew Hr0) as [c [Hc0 Hin]].
      apply in_map_iff in Hin as [c0 [<- _]].
      destruct (to_date_stamp c0) as [t Ht]. exists t.
      unfold cell_at in *. rewrite nth_error_map.
      destruct (nth_error r0 i) as [x|]; [|discriminate].
      injection Hc0 as ->. fold to_date. now rewrite Ht. }
    unfold date_pass, convert_date. rewrite Hc, Hl.
    assert (Hget1 : getitem d1 "date" = Ok col1).
    { unfold getitem. rewrite Hc, Hi. exact Hcol1. }
    rewrite Hget1. simpl. fold to_date. rewrite Hmap.
    now apply setitem_column_own.
  - injection Hd as <-. split; [reflexivity|]. split; [|auto].
    unfold date_pass, convert_date. simpl. now rewrite Hl.
Qed.

Lemma rename_canonical d :
  (forall l, l ∈ columns d -> l ∈ canonical_names) ->
  rename_columns (rename_by rename_mapping) (rename_columns lower d) = d.
Proof.
  intros H. unfold rename_columns. simpl. rewrite List.map_map.
  rewrite map_fixed; [apply frame_eta|].
  intros l Hl. apply list_elem_of_In, H in Hl.
  unfold canonical_names in Hl.
  repeat (apply elem_of_cons in Hl as [->|Hl]; [reflexivity|]).
  inversion Hl.
Qed.

Lemma standardize_fixed d d1 :
  (forall l, l ∈ columns d -> l ∈ canonical_names) ->
  standardize d = Ok d1 -> standardize d1 = Ok d1.
Proof.
  intros Hc H. unfold standardize, standardize_ohlcv_dataframe in *.
  rewrite (rename_canonical d Hc) in H.
  apply rbind_inv in H as [d' [Hd' H]]. cbv zeta in H.
  rewrite ffill_dropna in H.
  pose proof (numeric_columns_id _ _ _ H) as ->.
  destruct (cleaned_is_fixed d d' Hd') as [Hcols [Hdate [Hrep Hdrop]]].
  rewrite rename_canonical by (now rewrite Hcols).
  fold date_pass. rewrite Hdate. simpl.
  rewrite Hrep, Hdrop, ffill_dropna. exact H.
Qed.

(** C8.  On already-canonical data (canonical lowercase column names,
    no missing and no infinite value) the normalizer applied twice gives
    what it gives applied once. *)
Theorem standardize_idempotent_on_canonical (df : DataFrame) :
  canonical_frame df ->
  rbind (standardize df) standardize = standardize df.
Proof.
  intros [Hc _]. destruct (standardize df) as [d1|e] eqn:E; [|reflexivity].
  simpl. now apply (standardize_fixed df).
Qed.

End NormalizerFacts.

(** ** Writing a column *)

Lemma positions_absent name labels k :
  has_label name labels = false -> positions name labels k = [].
Proof.
  intros H. destruct (positions name labels k) as [|i rest] eqn:E; [reflexivity|].
  exfalso. destruct (positions_sound name labels k i) as [_ Hn].
  { rewrite E. now left. }
  assert (has_label name labels = true) by (apply has_label_nth; eauto).
  congruence.
Qed.

Lemma set_cell_get n v labels r m :
  NoDup labels -> List.length r = List.length labels ->
  series_get (add_label n labels, set_cell n labels r v) m
  = if String.eqb m n then Ok v else series_get (labels, r) m.
Proof.
  intros Hnd Hlen. unfold series_get, add_label, set_cell. simpl.
  destruct (has_label n labels) eqn:Hl; simpl.
  - apply has_label_nth in Hl as [i Hi].
    destruct (String.eqb_spec m n) as [->|Hne].
    + rewrite (locate_NoDup n labels i Hnd Hi). simpl. unfold cell_at.
      rewrite assign_at; [reflexivity|exact Hi|].
      rewrite Hlen. apply nth_error_Some. congruence.
    + destruct (locate m labels) as [j|e] eqn:Hj; simpl; [|reflexivity].
      unfold cell_at.
      now rewrite (assign_other n v labels r j m (locate_nth _ _ _ Hj) Hne).
  - unfold locate. rewrite positions_app. simpl.
    destruct (String.eqb_spec m n) as [->|Hne].
    + rewrite (positions_absent n labels 0 Hl), String.eqb_refl. simpl.
      unfold cell_at. rewrite nth_error_app2 by lia.
      now rewrite Hlen, Nat.sub_diag.
    + destruct (String.eqb_spec n m) as [->|_]; [congruence|].
      rewrite app_nil_r. fold (locate m labels).
      destruct (locate m labels) as [j|e] eqn:Hj; simpl; [|reflexivity].
      unfold cell_at. rewrite nth_error_app1; [reflexivity|].
      rewrite Hlen. apply nth_error_Some.
      rewrite (locate_nth _ _ _ Hj). congruence.
Qed.

Lemma set_cell_length n v labels r :
  List.length r = List.length labels ->
  List.length (set_cell n labels r v) = List.length (add_label n labels).
Proof.
  intros H. unfold set_cell, add_label. destruct (has_label n labels).
  - now rewrite assign_length.
  - rewrite !length_app. simpl. lia.
Qed.

Lemma add_label_NoDup n labels : NoDup labels -> NoDup (add_label n labels).
Proof.
  intros H. unfold add_label. destruct (has_label n labels) eqn:Hl; [exact H|].
  apply NoDup_app. split; [exact H|]. split; [|apply NoDup_singleton].
  intros x Hx Hx'. apply list_elem_of_singleton in Hx'. subst x.
  apply list_elem_of_In, In_nth_error in Hx as [j Hj].
  assert (has_label n labels = true) by (apply has_label_nth; eauto).
  congruence.
Qed.

Lemma setitem_scalar_wf d n v : wf_frame d -> wf_frame (setitem_scalar d n v).
Proof.
  intros [Hnd Hlen]. split; simpl.
  - now apply add_label_NoDup.
  - intros r Hr. apply list_elem_of_fmap in Hr as [r0 [-> Hr0]].
    apply set_cell_length. auto.
Qed.

Lemma set_rows_zip n labels : forall rows vals,
  List.length vals = List.length rows ->
  set_rows n labels rows vals
  = Ok (zip_with (fun r v => set_cell n labels r v) rows vals).
Proof.
  induction rows as [|r rows IH]; intros [|v vals] H; simpl in *;
    try discriminate; [reflexivity|].
  rewrite IH by lia. reflexivity.
Qed.

Lemma setitem_column_wf d n vals d' :
  wf_frame d -> setitem_column d n vals = Ok d' -> wf_frame d'.
Proof.
  intros [Hnd Hlen] H. unfold setitem_column in H.
  apply rbind_inv in H as [rows [Hrows [= <-]]]. split; simpl.
  - now apply add_label_NoDup.
  - revert vals rows Hrows Hlen. induction (data d) as [|r0 rs IH];
      intros [|v vals] rows Hrows Hlen; simpl in Hrows; try discriminate.
    + injection Hrows as <-. intros r Hr. inversion Hr.
    + apply rbind_inv in Hrows as [rs' [Hrs' [= <-]]].
      intros r Hr. apply elem_of_cons in Hr as [->|Hr].
      * apply set_cell_length. apply Hlen. apply elem_of_cons. now left.
      * eapply IH; eauto. intros r1 Hr1. apply Hlen. apply elem_of_cons. now right.
Qed.

(** A column read row by row. *)
Lemma getitem_rows d m i :
  locate m (columns d) = Ok i ->
  getitem d m = traverse (fun r => series_get (columns d, r) m) (data d).
Proof.
  intros Hi. unfold getitem, series_get. simpl. rewrite Hi. reflexivity.
Qed.

Lemma getitem_located d m col :
  getitem d m = Ok col -> exists i, locate m (columns d) = Ok i.
Proof. unfold getitem. intros H. apply rbind_inv in H as [i [Hi _]]. eauto. Qed.

Lemma locate_add_label n labels m i :
  NoDup labels -> locate m labels = Ok i ->
  locate m (add_label n labels) = Ok i.
Proof.
  intros Hnd Hi. apply locate_NoDup; [now apply add_label_NoDup|].
  unfold add_label. destruct (has_label n labels); [now apply locate_nth|].
  rewrite nth_error_app1; [now apply locate_nth|].
  apply nth_error_Some. rewrite (locate_nth _ _ _ Hi). congruence.
Qed.

Lemma getitem_setitem_scalar_other d n v m col :
  wf_frame d -> m <> n -> getitem d m = Ok col ->
  getitem (setitem_scalar d n v) m = Ok col.
Proof.
  intros [Hnd Hlen] Hne Hcol.
  destruct (getitem_located _ _ _ Hcol) as [i Hi].
  rewrite (getitem_rows _ _ _ Hi) in Hcol.
  rewrite (getitem_rows _ m i); [|now apply locate_add_label].
  simpl. revert col Hcol Hlen. induction (data d) as [|r rows IH];
    intros col Hcol Hlen; [exact Hcol|].
  apply traverse_inv in Hcol as [c [col' [Hc [Hcol' ->]]]]. simpl.
  rewrite set_cell_get; [|exact Hnd|apply Hlen; apply elem_of_cons; now left].
  destruct (String.eqb_spec m n); [congruence|]. rewrite Hc. simpl.
  rewrite (IH col'); [reflexivity|exact Hcol'|].
  intros r' Hr'. apply Hlen. apply elem_of_cons. now right.
Qed.

(** ** The candidate rows of one symbol *)

Lemma ownership_change_cells ts : forall os,
  rbind (zip_arith fdiv (List.map Num ts) (List.map Num os))
        (traverse (fun c => arith fmul c (Num (Fin 100))))
  = Ok (List.map Num (ownership_changes ts os)).
Proof.
  induction ts as [|t ts IH]; intros [|o os]; try reflexivity.
  specialize (IH os). simpl in *.
  destruct (zip_arith fdiv (List.map Num ts) (List.map Num os)) as [cs|];
    simpl in *; [|discriminate].
  destruct (traverse _ cs) as [cs'|]; simpl in *; [|discriminate].
  now injection IH as ->.
Qed.

Lemma ownership_change_numeric d ts os :
  getitem d "securitiesTransacted" = Ok (List.map Num ts) ->
  getitem d "securitiesOwned" = Ok (List.map Num os) ->
  ownership_change_of d = Ok (List.map Num (ownership_changes ts os)).
Proof.
  intros Ht Ho. unfold ownership_change_of. rewrite Ht, Ho. simpl.
  pose proof (ownership_change_cells ts os) as H.
  destruct (zip_arith fdiv _ _); simpl in *; [exact H|discriminate].
Qed.

Lemma getitem_length d m col :
  getitem d m = Ok col -> List.length col = List.length (data d).
Proof.
  unfold getitem. intros H. apply rbind_inv in H as [i [_ H]].
  now apply traverse_length in H.
Qed.

Lemma ownership_changes_length d ts os :
  getitem d "securitiesTransacted" = Ok (List.map Num ts) ->
  getitem d "securitiesOwned" = Ok (List.map Num os) ->
  List.length (ownership_changes ts os) = List.length (data d).
Proof.
  intros Ht Ho. apply getitem_length in Ht, Ho.
  rewrite length_map in Ht, Ho. unfold ownership_changes.
  rewrite length_zip_with. lia.
Qed.

Lemma locate_added n labels :
  NoDup labels -> exists i, locate n (add_label n labels) = Ok i.
Proof.
  intros Hnd.
  assert (H : has_label n (add_label n labels) = true).
  { unfold add_label. destruct (has_label n labels) eqn:E; [exact E|].
    apply has_label_nth. exists (List.length labels).
    rewrite nth_error_app2 by lia. now rewrite Nat.sub_diag. }
  apply has_label_nth in H as [i Hi]. exists i.
  apply locate_NoDup; [now apply add_label_NoDup|exact Hi].
Qed.

Lemma series_get_located labels r m i :
  locate m labels = Ok i -> cell_at r i = series_get (labels, r) m.
Proof. intros H. unfold series_get. simpl. now rewrite H. Qed.

Lemma annotated_row s v x labels r :
  NoDup labels -> List.length r = List.length labels ->
  let l1 := add_label "symbol" labels in
  let r1 := set_cell "symbol" labels r (Str s) in
  let l2 := add_label "ownership_change" l1 in
  let r2 := set_cell "ownership_change" l1 r1 v in
  let l3 := add_label "price_drop" l2 in
  let r3 := set_cell "price_drop" l2 r2 x in
  series_get (l3, r3) "symbol" = Ok (Str s)
  /\ series_get (l3, r3) "ownership_change" = Ok v
  /\ series_get (l3, r3) "price_drop" = Ok x.
Proof.
  intros Hnd Hlen l1 r1 l2 r2 l3 r3.
  assert (Hnd1 : NoDup l1) by now apply add_label_NoDup.
  assert (Hnd2 : NoDup l2) by now apply add_label_NoDup.
  assert (Hlen1 : List.length r1 = List.length l1) by now apply set_cell_length.
  assert (Hlen2 : List.length r2 = List.length l2) by now apply set_cell_length.
  unfold l3, r3. rewrite !(set_cell_get _ _ l2 r2) by assumption. simpl.
  unfold l2, r2. rewrite !(set_cell_get _ _ l1 r1) by assumption. simpl.
  unfold l1, r1. rewrite (set_cell_get _ _ labels r) by assumption. simpl.
  auto.
Qed.

Lemma project_annotated s x d : forall oc d3,
  wf_frame d -> List.length oc = List.length (data d) ->
  annotate_trades s oc x d = Ok d3 ->
  project d3 candidate_columns
  = Ok (mkDF candidate_columns (List.map (fun c => [Str s; c; x]) oc)).
Proof.
  intros oc d3 [Hnd Hlen] Hoc H. unfold annotate_trades in H.
  apply rbind_inv in H as [d2 [Hd2 [= <-]]].
  unfold setitem_column in Hd2. simpl in Hd2.
  rewrite set_rows_zip in Hd2 by (now rewrite length_map).
  injection Hd2 as <-.
  unfold project, setitem_scalar, candidate_columns. cbn [columns data].
  set (l1 := add_label "symbol" (columns d)).
  set (l2 := add_label "ownership_change" l1).
  set (l3 := add_label "price_drop" l2).
  assert (Hnd1 : NoDup l1) by now apply add_label_NoDup.
  assert (Hnd2 : NoDup l2) by now apply add_label_NoDup.
  destruct (locate_added "symbol" (columns d) Hnd) as [i1 Hi1]. fold l1 in Hi1.
  apply (locate_add_label "ownership_change" _ _ _ Hnd1) in Hi1. fold l2 in Hi1.
  apply (locate_add_label "price_drop" _ _ _ Hnd2) in Hi1. fold l3 in Hi1.
  destruct (locate_added "ownership_change" l1 Hnd1) as [i2 Hi2]. fold l2 in Hi2.
  apply (locate_add_label "price_drop" _ _ _ Hnd2) in Hi2. fold l3 in Hi2.
  destruct (locate_added "price_drop" l2 Hnd2) as [i3 Hi3]. fold l3 in Hi3.
  cbn [traverse]. rewrite Hi1, Hi2, Hi3. cbn [rbind].
  assert (Hrows :
    traverse (fun r => traverse (cell_at r) [i1; i2; i3])
      (List.map (fun r => set_cell "price_drop" l2 r x)
         (zip_with (fun r v => set_cell "ownership_change" l1 r v)
            (List.map (fun r => set_cell "symbol" (columns d) r (Str s))
                      (data d)) oc))
    = Ok (List.map (fun c => [Str s; c; x]) oc)).
  { revert oc Hoc Hlen. induction (data d) as [|r rows IH];
      intros oc Hoc Hlen; [now destruct oc|].
    destruct oc as [|v oc]; [discriminate|].
    cbn [List.map zip_with traverse].
    destruct (annotated_row s v x (columns d) r Hnd) as [H1 [H2 H3]].
    { apply Hlen. apply elem_of_cons. now left. }
    cbv zeta in H1, H2, H3. fold l1 l2 l3 in H1, H2, H3.
    rewrite (series_get_located _ _ _ _ Hi1), H1. cbn [rbind].
    rewrite (series_get_located _ _ _ _ Hi2), H2. cbn [rbind].
    rewrite (series_get_located _ _ _ _ Hi3), H3. cbn [rbind].
    rewrite IH; [reflexivity|simpl in Hoc; lia|].
    intros r' Hr'. apply Hlen. apply elem_of_cons. now right. }
  rewrite Hrows. reflexivity.
Qed.

Lemma annotate_trades_ok s x d oc :
  List.length oc = List.length (data d) ->
  exists d3, annotate_trades s oc x d = Ok d3.
Proof.
  intros H. unfold annotate_trades, setitem_column. simpl.
  rewrite set_rows_zip by (now rewrite length_map). simpl. eauto.
Qed.

Lemma store_run l d w :
  store l d w = Ok (tt, mkWorld (<[l := d]> (objs w)) (log w)).
Proof. reflexivity. Qed.

Lemma collect_body_run prices acc s l w d ts os x :
  objs w !! l = Some d -> holdings d ts os ->
  attached_drop (objs w) prices s x ->
  (forall lp, dict_get prices s = Some lp -> lp <> l) ->
  exists d3,
    annotate_trades s (List.map Num (ownership_changes ts os)) x d = Ok d3
    /\ collect_body prices acc (s, l) w
       = Ok (acc ++ [candidate_table s (ownership_changes ts os) x],
             mkWorld (<[l := d3]> (objs w)) (log w)).
Proof.
  intros Hd [Hwf [Hts Hos]] [lp [p [pcol [Hlp [Hp [Hpcol Hx]]]]]] Hne.
  set (oc := List.map Num (ownership_changes ts os)).
  assert (Hlen : List.length oc = List.length (data d)).
  { unfold oc. rewrite length_map. eapply ownership_changes_length; eauto. }
  destruct (annotate_trades_ok s x d oc Hlen) as [d3 Hd3].
  exists d3. split; [exact Hd3|].
  pose proof (project_annotated s x d oc d3 Hwf Hlen Hd3) as Hproj.
  unfold annotate_trades in Hd3.
  apply rbind_inv in Hd3 as [d2 [Hd2 [= <-]]].
  set (d1 := setitem_scalar d "symbol" (Str s)) in *.
  assert (Hoc : ownership_change_of d1 = Ok oc).
  { apply ownership_change_numeric.
    - apply getitem_setitem_scalar_other; [exact Hwf|discriminate|exact Hts].
    - apply getitem_setitem_scalar_other; [exact Hwf|discriminate|exact Hos]. }
  unfold collect_body.
  rewrite (bind_ok _ _ _ _ _ (load_ok _ _ _ Hd)).
  fold d1. rewrite (bind_ok _ _ _ _ _ (store_run _ _ _)).
  rewrite (bind_ok _ _ _ _ _ (lift_ok _ _ _ Hoc)).
  rewrite (bind_ok _ _ _ _ _ (lift_ok _ _ _ Hd2)).
  rewrite (bind_ok _ _ _ _ _ (store_run _ _ _)).
  rewrite Hlp. cbn [objs log].
  set (w2 := mkWorld (<[l:=d2]> (<[l:=d1]> (objs w))) (log w)).
  assert (Hp2 : objs w2 !! lp = Some p).
  { unfold w2. cbn [objs]. specialize (Hne lp Hlp).
    now rewrite !list_lookup_insert_ne by congruence. }
  assert (Hrun : (p0 <- load lp ;;
                  price_drop <- lift (rbind (getitem p0 "price_drop") last_cell) ;;
                  (let d3 := setitem_scalar d2 "price_drop" price_drop in
                   store l d3 ;;; ret d3)) w2
                 = Ok (setitem_scalar d2 "price_drop" x,
                       mkWorld (<[l := setitem_scalar d2 "price_drop" x]> (objs w))
                               (log w))).
  { rewrite (bind_ok _ _ _ _ _ (load_ok _ _ _ Hp2)).
    assert (Hx' : rbind (getitem p "price_drop") last_cell = Ok x)
      by (now rewrite Hpcol).
    rewrite (bind_ok _ _ _ _ _ (lift_ok _ _ _ Hx')).
    cbv zeta. rewrite (bind_ok _ _ _ _ _ (store_run _ _ _)).
    unfold ret, w2. cbn [objs log]. now rewrite !list_insert_insert_eq. }
  rewrite (bind_ok _ _ _ _ _ Hrun).
  rewrite (bind_ok _ _ _ _ _ (lift_ok _ _ _ Hproj)).
  unfold ret, candidate_table, oc. now rewrite List.map_map.
Qed.

Lemma Forall2_impl_in {A B} (R1 R2 : A -> B -> Prop) l k :
  (forall a b, a ∈ l -> R1 a b -> R2 a b) ->
  Forall2 R1 l k -> Forall2 R2 l k.
Proof.
  intros H HF. induction HF as [|a b l k Hab HF IH]; constructor.
  - apply H; [apply elem_of_cons; now left|exact Hab].
  - apply IH. intros a' b' Ha'. apply H. apply elem_of_cons. now right.
Qed.

Lemma attached_drop_insert o l d prices s x :
  (forall lp, dict_get prices s = Some lp -> lp <> l) ->
  attached_drop (<[l := d]> o) prices s x -> attached_drop o prices s x.
Proof.
  intros Hne [lp [p [pcol [Hlp [Hp H]]]]]. exists lp, p, pcol.
  split; [exact Hlp|]. split; [|exact H].
  rewrite list_lookup_insert_ne in Hp; [exact Hp|].
  intros E. now apply (Hne lp Hlp).
Qed.

Lemma attached_drop_insert_2 o l d prices s x :
  (forall lp, dict_get prices s = Some lp -> lp <> l) ->
  attached_drop o prices s x -> attached_drop (<[l := d]> o) prices s x.
Proof.
  intros Hne [lp [p [pcol [Hlp [Hp H]]]]]. exists lp, p, pcol.
  split; [exact Hlp|]. split; [|exact H].
  rewrite list_lookup_insert_ne; [exact Hp|].
  intros E. now apply (Hne lp Hlp).
Qed.

Lemma collect_loop prices items : forall acc w,
  NoDup (refs items) ->
  (forall s lp, s ∈ keys items -> dict_get prices s = Some lp ->
                lp ∉ refs items) ->
  (forall s l, (s, l) ∈ items ->
               exists d ts os x,
                 objs w !! l = Some d /\ holdings d ts os
                 /\ attached_drop (objs w) prices s x) ->
  exists fs w',
    for_each items (collect_body prices) acc w = Ok (acc ++ fs, w')
    /\ log w' = log w
    /\ Forall2 (candidate_of (objs w) (objs w') prices) items fs
    /\ (forall l, l ∉ refs items -> objs w' !! l = objs w !! l).
Proof.
  induction items as [|[s l] items IH]; intros acc w Hr Hp Hw.
  - exists [], w. simpl. unfold ret. rewrite app_nil_r.
    repeat split; auto.
  - simpl in Hr. apply NoDup_cons in Hr as [Hl Hr].
    destruct (Hw s l) as [d [ts [os [x [Hd [Hh Ha]]]]]];
      [apply elem_of_cons; now left|].
    assert (Hne : forall lp, dict_get prices s = Some lp -> lp <> l).
    { intros lp Hlp ->. eapply (Hp s l); [|exact Hlp|].
      - apply elem_of_cons. now left.
      - apply elem_of_cons. now left. }
    destruct (collect_body_run prices acc s l w d ts os x Hd Hh Ha Hne)
      as [d3 [Hd3 Hrun]].
    rewrite (for_each_cons _ _ _ _ _ _ _ Hrun).
    set (w1 := mkWorld (<[l := d3]> (objs w)) (log w)).
    assert (Hother : forall s' l', (s', l') ∈ items -> l' <> l).
    { intros s' l' Hin ->. apply Hl. unfold refs. apply list_elem_of_fmap.
      now exists (s', l). }
    assert (Hprice : forall s' lp, s' ∈ keys items ->
                                   dict_get prices s' = Some lp -> lp <> l).
    { intros s' lp Hs' Hlp ->. eapply (Hp s' l); [|exact Hlp|].
      - apply elem_of_cons. now right.
      - apply elem_of_cons. now left. }
    destruct (IH (acc ++ [candidate_table s (ownership_changes ts os) x]) w1)
      as [fs [w' [Hfor [Hlog [HF Hframe]]]]]; auto.
    { intros s' lp Hs' Hlp Hin. eapply (Hp s' lp); [|exact Hlp|].
      - apply elem_of_cons. now right.
      - apply elem_of_cons. now right. }
    { intros s' l' Hin.
      destruct (Hw s' l') as [d' [ts' [os' [x' [Hd' [Hh' Ha']]]]]];
        [apply elem_of_cons; now right|].
      exists d', ts', os', x'. simpl.
      split; [rewrite list_lookup_insert_ne; auto; intros E;
              now apply (Hother s' l')|].
      split; [exact Hh'|].
      apply attached_drop_insert_2; [|exact Ha'].
      intros lp Hlp. apply (Hprice s'); [|exact Hlp]. eapply elem_keys; eauto. }
    exists (candidate_table s (ownership_changes ts os) x :: fs), w'.
    split; [|split; [|split]].
    + rewrite Hfor. now rewrite <- app_assoc.
    + now rewrite Hlog.
    + constructor.
      * exists d, ts, os, x, d3. simpl. repeat (split; [assumption||reflexivity|]).
        rewrite Hframe by exact Hl. simpl.
        apply list_lookup_insert_eq. now apply lookup_lt_Some in Hd.
      * eapply Forall2_impl_in; [|exact HF].
        intros [s' l'] f Hin [d' [ts' [os' [x' [d3' H]]]]]. simpl in H.
        destruct H as [Hd' [Hh' [Ha' [Hf [Han Hw']]]]].
        exists d', ts', os', x', d3'. simpl.
        split; [|split; [exact Hh'|split; [|auto]]].
        -- rewrite list_lookup_insert_ne in Hd'; [exact Hd'|].
           intros E. now apply (Hother s' l').
        -- eapply attached_drop_insert; [|exact Ha'].
           intros lp Hlp. apply (Hprice s'); [|exact Hlp]. eapply elem_keys; eauto.
    + intros l0 Hl0. rewrite Hframe.
      * simpl. apply list_lookup_insert_ne. intros ->. apply Hl0.
        apply elem_of_cons. now left.
      * intros Hin. apply Hl0. apply elem_of_cons. now right.
Qed.

(** ** Group keys *)

Lemma ltb_lt a b : String.ltb a b = true <-> String_as_OT.lt a b.
Proof.
  unfold String.ltb. rewrite <- String_as_OT.cmp_lt. unfold String_as_OT.cmp.
  destruct (String.compare a b); split; congruence.
Qed.

Lemma ltb_total a b :
  a <> b -> String.ltb a b = false -> String_as_OT.lt b a.
Proof.
  intros Hne Hlt. apply String_as_OT.cmp_lt. unfold String_as_OT.cmp.
  unfold String.ltb in Hlt. rewrite String.compare_antisym.
  destruct (String.compare a b) eqn:E; try discriminate; [|reflexivity].
  apply String.compare_eq_iff in E. contradiction.
Qed.

Lemma insert_sorted_In k ks x :
  In x (insert_sorted k ks) <-> x = k \/ In x ks.
Proof.
  induction ks as [|k' ks IH]; simpl.
  - intuition.
  - destruct (String.eqb_spec k k') as [->|Hne]; simpl; [intuition|].
    destruct (String.ltb k k'); simpl; [intuition|].
    rewrite IH. intuition.
Qed.

Lemma insert_sorted_sorted k ks :
  StronglySorted String_as_OT.lt ks ->
  StronglySorted String_as_OT.lt (insert_sorted k ks).
Proof.
  induction 1 as [|k' ks Hs IH Hall]; simpl.
  - repeat constructor.
  - destruct (String.eqb_spec k k') as [->|Hne]; [now constructor|].
    destruct (String.ltb k k') eqn:Hlt.
    + apply ltb_lt in Hlt. constructor; [now constructor|].
      constructor; [exact Hlt|].
      eapply List.Forall_impl; [|exact Hall]. intros x Hx.
      eapply String_as_OT.lt_trans; eauto.
    + constructor; [exact IH|]. apply List.Forall_forall. intros x Hx.
      apply insert_sorted_In in Hx as [->|Hx].
      * now apply ltb_total.
      * rewrite List.Forall_forall in Hall. now apply Hall.
Qed.

Lemma group_keys_sorted l : StronglySorted String_as_OT.lt (group_keys l).
Proof.
  induction l as [|k l IH]; simpl; [constructor|].
  now apply insert_sorted_sorted.
Qed.

Lemma group_keys_In l x : In x (group_keys l) <-> In x l.
Proof.
  induction l as [|k l IH]; simpl; [tauto|].
  rewrite insert_sorted_In, IH. intuition.
Qed.

Lemma sorted_NoDup l : StronglySorted String_as_OT.lt l -> NoDup l.
Proof.
  induction 1 as [|k ks Hs IH Hall]; constructor; [|exact IH].
  intros Hin. rewrite List.Forall_forall in Hall.
  apply list_elem_of_In in Hin. specialize (Hall k Hin).
  apply String_as_OT.lt_not_eq in Hall. now apply Hall.
Qed.

Lemma group_keys_NoDup l : NoDup (group_keys l).
Proof. apply sorted_NoDup, group_keys_sorted. Qed.

(** ** Means *)










(** ** Grouping the candidate rows *)



Lemma select_app {A} (a b : list A) ma mb :
  List.length ma = List.length a ->
  select (a ++ b) (ma ++ mb) = select a ma ++ select b mb.
Proof.
  revert ma. induction a as [|x a IH]; intros [|m ma] H; simpl in *;
    try discriminate; [reflexivity|].
  rewrite IH by lia. now destruct m.
Qed.

Lemma group_of_app {A} k s1 s2 (v1 v2 : list A) :
  List.length s1 = List.length v1 ->
  select (v1 ++ v2) (List.map (String.eqb k) (s1 ++ s2))
  = select v1 (List.map (String.eqb k) s1)
    ++ select v2 (List.map (String.eqb k) s2).
Proof.
  intros H. rewrite List.map_app. apply select_app.
  now rewrite length_map.
Qed.

Lemma select_all {A} (v : list A) :
  select v (repeat true (List.length v)) = v.
Proof. induction v as [|x v IH]; simpl; [reflexivity|]. now rewrite IH. Qed.

Lemma select_none {A} (v : list A) n : select v (repeat false n) = [].
Proof.
  revert n. induction v as [|x v IH]; intros [|n]; simpl; auto.
Qed.





(** ** The aggregator *)













Lemma Forall2_In_l {A B} (R : A -> B -> Prop) l k a :
  Forall2 R l k -> In a l -> exists b, In b k /\ R a b.
Proof.
  induction 1 as [|x y l k Hxy _ IH]; intros Ha; [contradiction|].
  destruct Ha as [<-|Ha].
  - exists y. split; [now left|exact Hxy].
  - destruct (IH Ha) as [b [Hb Hab]]. exists b. split; [now right|exact Hab].
Qed.








Lemma dict_get_single k v s lp : dict_get [(k, v)] s = Some lp -> lp = v.
Proof. simpl. destruct (String.eqb k s); congruence. Qed.

Lemma abc_holdings :
  holdings abc_buys (List.map Fin [500; 1500]%Q) (List.map Fin [10000; 10000]%Q).
Proof.
  split; [|split; reflexivity]. split.
  - simpl. nodup_list.
  - intros r Hr. simpl in Hr.
    repeat (apply elem_of_cons in Hr as [->|Hr]; [reflexivity|]).
    inversion Hr.
Qed.

Lemma abc_drop o : o !! 0%nat = Some abc_prices ->
  attached_drop o abc_prices_dict "ABC" (Num (Fin 20)).
Proof.
  intros H. exists 0%nat, abc_prices, [Num (Fin 20); Num (Fin 20)].
  repeat split; [exact H].
Qed.


(** ** Division by the holdings *)




(** ** Which objects a stage writes *)

Lemma annotate_trades_columns s oc x d d3 :
  annotate_trades s oc x d = Ok d3 ->
  columns d3
  = add_label "price_drop"
      (add_label "ownership_change" (add_label "symbol" (columns d))).
Proof.
  unfold annotate_trades, setitem_column. intros H.
  apply rbind_inv in H as [d2 [H [= <-]]].
  apply rbind_inv in H as [rows [_ [= <-]]]. reflexivity.
Qed.

(** C6, as stated, fails: the series of a symbol that does not pass the
    price-drop filter is changed in place. *)
Lemma price_drop_filter_writes_input :
  exists w',
    filter_by_price_drop [("DOWN", 0%nat)] (Fin (-10)) falling_world
    = Ok ([], w')
    /\ objs falling_world !! 0%nat = Some falling_series
    /\ objs w' !! 0%nat = Some falling_annotated
    /\ falling_annotated <> falling_series.
Proof.
  eexists. repeat split. discriminate.
Qed.

(** C6, as amended.  The stages build new dictionaries and write only to
    the frames their input dictionary refers to.  The price-drop filter
    sets the [price_drop] column of every input series with data, in
    place and whether or not the symbol passes; it leaves empty series and
    every other object as they were, prints and writes nothing, and its
    output refers to the very frames of its input.  The loop of the
    aggregator sets [symbol], [ownership_change] and [price_drop] in
    place in the transaction tables it is given and leaves every other
    object, the price series among them, as it was. *)
Theorem stages_write_their_input_frames
        (w : world) (prices : pydict) (thr : fval)
        (w2 : world) (filtered_prices trades : pydict) :
  NoDup (keys prices) -> NoDup (refs prices) ->
  (forall s l, (s, l) ∈ prices -> exists d, objs w !! l = Some d /\ priced d) ->
  NoDup (refs trades) ->
  (forall s lp, s ∈ keys trades -> dict_get filtered_prices s = Some lp ->
                lp ∉ refs trades) ->
  (forall s l, (s, l) ∈ trades ->
     exists d ts os x,
       objs w2 !! l = Some d /\ holdings d ts os
       /\ attached_drop (objs w2) filtered_prices s x) ->
  (exists out w',
     filter_by_price_drop prices thr w = Ok (out, w')
     /\ log w' = log w
     /\ (forall s l, (s, l) ∈ out -> (s, l) ∈ prices)
     /\ (forall l, l ∉ refs prices -> objs w' !! l = objs w !! l)
     /\ (forall s l d,
           (s, l) ∈ prices -> objs w !! l = Some d -> empty_frame d = true ->
           objs w' !! l = Some d)
     /\ (forall s l d first last,
           (s, l) ∈ prices -> objs w !! l = Some d -> empty_frame d = false ->
           close_at d 0 = Ok (Num first) -> close_at d (-1) = Ok (Num last) ->
           objs w' !! l
           = Some (setitem_scalar d "price_drop"
                     (Num (price_drop_of first last)))))
  /\ (exists fs w',
        collect_candidates filtered_prices trades w2 = Ok (fs, w')
        /\ log w' = log w2
        /\ (forall l, l ∉ refs trades -> objs w' !! l = objs w2 !! l)
        /\ (forall item, item ∈ trades ->
                         written_in_place (objs w2) (objs w') item)).
Proof.
  intros Hk Hr Hw Hr2 Hp2 Hw2. split.
  - destruct (price_loop thr prices [] w Hk Hr) as [w' [Hrun [Hlog Hobjs]]]; auto.
    { intros k _ H. inversion H. }
    exists (List.filter (retained (objs w) thr) prices), w'.
    split; [exact Hrun|]. split; [exact Hlog|]. split; [|split; [|split]].
    + intros s l Hin. now apply filter_elem in Hin.
    + intros l Hl. rewrite Hobjs. now rewrite bool_decide_eq_false_2.
    + intros s l d Hin Hd He. rewrite Hobjs, Hd.
      destruct (bool_decide (l ∈ refs prices)); [|reflexivity].
      simpl. unfold annotate, frame_drop. now rewrite He.
    + intros s l d a b Hin Hd He Ha Hb. rewrite Hobjs.
      rewrite bool_decide_eq_true_2.
      * rewrite Hd. simpl. unfold annotate, frame_drop. now rewrite He, Ha, Hb.
      * unfold refs. apply list_elem_of_fmap. now exists (s, l).
  - destruct (collect_loop filtered_prices trades [] w2 Hr2 Hp2 Hw2)
      as [fs [w' [Hrun [Hlog [HF Hfr]]]]].
    exists fs, w'. split; [exact Hrun|]. split; [exact Hlog|].
    split; [exact Hfr|]. intros item Hin.
    destruct (Forall2_In_l _ _ _ _ HF (proj1 (list_elem_of_In _ _) Hin))
      as [f [_ [d [ts [os [x [d3 [Hd [_ [_ [_ [Han Hd3]]]]]]]]]]]].
    exists d, d3, (List.map Num (ownership_changes ts os)), x.
    split; [exact Hd|]. split; [exact Han|]. split; [exact Hd3|].
    eapply annotate_trades_columns; eauto.
Qed.

Lemma stages_write_their_input_frames_witness :
  (exists out w',
     filter_by_price_drop [("DOWN", 0%nat)] (Fin (-10)) falling_world
     = Ok (out, w') /\ log w' = log falling_world)
  /\ (exists fs w',
        collect_candidates abc_prices_dict abc_trades_dict abc_world
        = Ok (fs, w')
        /\ objs w' !! 0%nat = objs abc_world !! 0%nat).
Proof.
  destruct (stages_write_their_input_frames
              falling_world [("DOWN", 0%nat)] (Fin (-10))
              abc_world abc_prices_dict abc_trades_dict) as [H1 H2].
  - apply NoDup_singleton.
  - apply NoDup_singleton.
  - intros s l H. apply list_elem_of_singleton in H. injection H as -> ->.
    exists falling_series. split; [reflexivity|]. right.
    exists (Fin 100), (Fin 80). split; reflexivity.
  - nodup_list.
  - intros s lp _ Hlp. apply dict_get_single in Hlp as ->.
    simpl. rewrite list_elem_of_singleton. discriminate.
  - intros s l H. apply list_elem_of_singleton in H. injection H as -> ->.
    exists abc_buys, (List.map Fin [500; 1500]%Q),
      (List.map Fin [10000; 10000]%Q), (Num (Fin 20)).
    split; [reflexivity|]. split; [apply abc_holdings|now apply abc_drop].
  - split.
    + destruct H1 as [out [w' [Hrun [Hlog _]]]]. now exists out, w'.
    + destruct H2 as [fs [w' [Hrun [_ [Hfr _]]]]]. exists fs, w'.
      split; [exact Hrun|]. apply Hfr. simpl.
      rewrite list_elem_of_singleton. discriminate.
Defined.

(** ** What a run prints and writes *)















Lemma collect_none prices w : collect_candidates prices [] w = Ok ([], w).
Proof. reflexivity. Qed.



(** C2: the code on the end-to-end scenario.  At threshold -10 the
    price-drop filter keeps XYZ, whose close rose (price_drop = -10), and
    drops ABC, whose close fell (price_drop = 30); the insider trades of
    ABC are never fetched, no symbol survives, and [find_candidates]
    returns [None] instead of the row (ABC, 10.0). *)
Lemma e2e_scenario_finds_nothing :
  price_drop_of (Fin 100) (Fin 70) = Fin 30
  /\ price_drop_of (Fin 100) (Fin 110) = Fin (-10)
  /\ (exists w1,
        survivors (Fin (-10)) e2e_symbols e2e_prices e2e_trades start
        = Ok (([("XYZ", 1%nat)], []), w1))
  /\ (exists w',
        find_candidates (Fin (-10)) "results" e2e_symbols e2e_prices
                        e2e_trades start
        = Ok (None, w')).
Proof.
  split; [reflexivity|]. split; [reflexivity|].
  split; eexists; vm_compute; reflexivity.
Qed.

Lemma canonical_example_is_canonical : canonical_frame canonical_example.
Proof.
  split.
  - intros l Hl. simpl in Hl. unfold canonical_names.
    repeat (apply elem_of_cons in Hl as [->|Hl];
            [rewrite !elem_of_cons; tauto|]).
    inversion Hl.
  - intros r c Hr Hc. simpl in Hr.
    repeat (apply elem_of_cons in Hr as [->|Hr];
            [repeat (apply elem_of_cons in Hc as [->|Hc];
                     [repeat split; discriminate|]); inversion Hc|]).
    inversion Hr.
Qed.

Lemma standardize_idempotent_on_canonical_witness :
  rbind (standardize_ohlcv_dataframe example_parse_datetime
           example_datetime_of_number example_parse_number canonical_example)
        (standardize_ohlcv_dataframe example_parse_datetime
           example_datetime_of_number example_parse_number)
  = standardize_ohlcv_dataframe example_parse_datetime
      example_datetime_of_number example_parse_number canonical_example.
Proof.
  apply (standardize_idempotent_on_canonical example_parse_datetime
           example_datetime_of_number example_parse_number canonical_example).
  exact canonical_example_is_canonical.
Defined.

(** ** The batch loops of the loader *)

Lemma dict_set_keys_NoDup d k v : NoDup (keys d) -> NoDup (keys (dict_set d k v)).
Proof.
  induction d as [|[k' v'] d IH]; simpl; intros H.
  - apply NoDup_singleton.
  - apply NoDup_cons in H as [Hk Hd].
    destruct (String.eqb_spec k' k) as [->|Hne]; simpl.
    + apply NoDup_cons. auto.
    + apply NoDup_cons. split; [|auto].
      intros Hin. apply Hk. clear - Hin Hne.
      induction d as [|[k2 v2] d IH]; simpl in *.
      * apply list_elem_of_singleton in Hin. congruence.
      * destruct (String.eqb_spec k2 k) as [->|Hne2]; simpl in *.
        -- exact Hin.
        -- apply elem_of_cons in Hin as [->|Hin];
             [apply elem_of_cons; now left|].
           apply elem_of_cons. right. auto.
Qed.



Lemma hits_frames_length fetch symbols :
  List.length (frames_of fetch symbols) = List.length (hits fetch symbols).
Proof.
  unfold frames_of, hits, fetched.
  induction symbols as [|s symbols IH]; simpl; [reflexivity|].
  destruct (fetch s); simpl; [now rewrite IH|exact IH].
Qed.






(** ** Tables of the provider through the stages *)



Lemma iloc_first d r rows :
  data d = r :: rows -> iloc d 0 = Ok (columns d, r).
Proof. intros H. unfold iloc. rewrite H. reflexivity. Qed.





Lemma traverse_select {A B} (f : A -> result B) rows : forall col m,
  traverse f rows = Ok col -> traverse f (select rows m) = Ok (select col m).
Proof.
  induction rows as [|r rows IH]; intros col m H.
  - injection H as <-. reflexivity.
  - apply traverse_inv in H as [c [col' [Hc [H ->]]]].
    destruct m as [|b m]; [reflexivity|]. simpl.
    destruct b; simpl; [rewrite Hc; simpl|]; now rewrite (IH col' m H).
Qed.



Lemma getitem_mask_rows d m name col :
  getitem d name = Ok col ->
  getitem (mask_rows d m) name = Ok (select col m).
Proof.
  unfold getitem. simpl. intros H. apply rbind_inv in H as [i [Hi H]].
  rewrite Hi. simpl. now apply traverse_select.
Qed.


Lemma ceo_buys_of_mask d b :
  ceo_buys_of d = Ok b -> exists m, b = mask_rows d m.
Proof.
  unfold ceo_buys_of. intros H.
  apply rbind_inv in H as [owners [_ H]].
  apply rbind_inv in H as [types [_ [= <-]]]. eauto.
Qed.

Lemma ceo_buys_body_cases acc s l w acc' w' :
  ceo_buys_body acc (s, l) w = Ok (acc', w') ->
  (acc' = acc /\ w' = w)
  \/ (acc' = dict_set acc s (List.length (objs w))
      /\ exists b, w' = mkWorld (objs w ++ [b]) (log w)).
Proof.
  unfold ceo_buys_body. intros H.
  apply bind_inv in H as [d [w1 [H1 H]]]. apply load_inv in H1 as [_ ->].
  apply bind_inv in H as [b [w2 [H2 H]]]. apply lift_inv in H2 as [_ ->].
  destruct (empty_frame b); simpl in H.
  - injection H as <- <-. now left.
  - unfold bind, alloc, ret in H. injection H as <- <-. right. eauto.
Qed.

Lemma ceo_refs items : forall acc w out w',
  NoDup (keys items) -> (forall k, k ∈ keys items -> k ∉ keys acc) ->
  for_each items ceo_buys_body acc w = Ok (out, w') ->
  exists k,
    out = acc ++ k
    /\ refs k = seq (List.length (objs w)) (List.length k)
    /\ List.length (objs w') = (List.length (objs w) + List.length k)%nat.
Proof.
  induction items as [|[s l] items IH]; intros acc w out w' Hk Hacc H.
  - injection H as <- <-. exists []. rewrite app_nil_r. simpl. auto with arith.
  - simpl in Hk. apply NoDup_cons in Hk as [Hs Hk].
    simpl in H. apply bind_inv in H as [acc1 [w1 [Hb H]]].
    apply ceo_buys_body_cases in Hb as [[-> ->]|[-> [b ->]]].
    + apply (IH acc w out w' Hk); [|exact H].
      intros k Hin. apply Hacc. apply elem_of_cons. now right.
    + rewrite dict_set_fresh in H by (apply Hacc; apply elem_of_cons; now left).
      destruct (IH (acc ++ [(s, List.length (objs w))])
                  (mkWorld (objs w ++ [b]) (log w)) out w' Hk)
        as [k [-> [Hrefs Hlen]]]; [|exact H|].
      { intros k Hin. rewrite keys_app, elem_of_app. intros [Hin'|Hin'].
        - eapply Hacc; [|exact Hin']. apply elem_of_cons. now right.
        - simpl in Hin'. apply list_elem_of_singleton in Hin'. congruence. }
      cbn [objs] in Hrefs, Hlen. rewrite length_app in Hrefs, Hlen.
      cbn [List.length] in Hrefs, Hlen.
      exists ((s, List.length (objs w)) :: k). split; [now rewrite <- app_assoc|].
      split.
      * cbn [refs List.map snd List.length seq]. f_equal.
        unfold refs in Hrefs. rewrite Hrefs. f_equal. lia.
      * rewrite Hlen. simpl. lia.
Qed.





Lemma refs_filter_sub (f : string * nat -> bool) (d : pydict) l :
  l ∈ refs (List.filter f d) -> l ∈ refs d.
Proof.
  unfold refs. rewrite !list_elem_of_fmap. intros [x [-> Hx]]. exists x.
  split; [reflexivity|]. now apply filter_elem in Hx.
Qed.

Lemma keys_elem (d : pydict) s : s ∈ keys d -> exists l, (s, l) ∈ d.
Proof.
  unfold keys. rewrite list_elem_of_fmap. intros [[s' l] [-> H]]. eauto.
Qed.


(** ** The whole run on tables of the provider *)













(** ** More on the price-drop filter *)

Lemma fle_trans x y z : fle x y = true -> fle y z = true -> fle x z = true.
Proof.
  destruct x as [a| | |], y as [b| | |], z as [c| | |]; simpl;
    try discriminate; try reflexivity.
  rewrite !Qle_bool_iff. apply Qle_trans.
Qed.

Lemma price_run thr prices w :
  NoDup (keys prices) -> NoDup (refs prices) ->
  (forall s l, (s, l) ∈ prices -> exists d, objs w !! l = Some d /\ priced d) ->
  exists w',
    filter_by_price_drop prices thr w
    = Ok (List.filter (retained (objs w) thr) prices, w')
    /\ forall l, objs w' !! l =
                 if bool_decide (l ∈ refs prices)
                 then annotate <$> objs w !! l else objs w !! l.
Proof.
  intros Hk Hr Hw.
  destruct (price_loop thr prices [] w Hk Hr) as [w' [Hrun [_ Hobjs]]]; auto.
  { intros k _ H. inversion H. }
  exists w'. auto.
Qed.

(** X3.  The price-drop filter is monotone in its threshold: what it keeps
    at a threshold it keeps at every larger one, and what it writes into
    the series does not depend on the threshold. *)
Theorem price_drop_filter_monotone (w : world) (prices : pydict)
        (thr1 thr2 : fval) :
  NoDup (keys prices) -> NoDup (refs prices) ->
  (forall s l, (s, l) ∈ prices -> exists d, objs w !! l = Some d /\ priced d) ->
  fle thr1 thr2 = true ->
  exists out1 out2 w1 w2,
    filter_by_price_drop prices thr1 w = Ok (out1, w1)
    /\ filter_by_price_drop prices thr2 w = Ok (out2, w2)
    /\ (forall item, item ∈ out1 -> item ∈ out2)
    /\ objs w1 = objs w2.
Proof.
  intros Hk Hr Hw Hle.
  destruct (price_run thr1 prices w Hk Hr Hw) as [w1 [Hrun1 Ho1]].
  destruct (price_run thr2 prices w Hk Hr Hw) as [w2 [Hrun2 Ho2]].
  eexists _, _, w1, w2. split; [exact Hrun1|]. split; [exact Hrun2|]. split.
  - intros item. rewrite !filter_elem. intros [Hin Hret]. split; [exact Hin|].
    unfold retained in *. destruct (objs w !! snd item); [|discriminate].
    destruct (frame_drop d); [|discriminate]. eapply fle_trans; eauto.
  - apply list_eq. intros i. now rewrite Ho1, Ho2.
Qed.

Lemma falling_priced s l :
  (s, l) ∈ [("DOWN", 0%nat)] ->
  exists d, objs falling_world !! l = Some d /\ priced d.
Proof.
  intros H. apply list_elem_of_singleton in H. injection H as -> ->.
  exists falling_series. split; [reflexivity|]. right.
  exists (Fin 100), (Fin 80). split; reflexivity.
Qed.

Lemma price_drop_filter_monotone_witness :
  exists out1 out2 w1 w2,
    filter_by_price_drop [("DOWN", 0%nat)] (Fin (-10)) falling_world
    = Ok (out1, w1)
    /\ filter_by_price_drop [("DOWN", 0%nat)] (Fin 25) falling_world
       = Ok (out2, w2)
    /\ (forall item, item ∈ out1 -> item ∈ out2).
Proof.
  destruct (price_drop_filter_monotone falling_world [("DOWN", 0%nat)]
              (Fin (-10)) (Fin 25))
    as [out1 [out2 [w1 [w2 [H1 [H2 [H3 _]]]]]]].
  - apply NoDup_singleton.
  - apply NoDup_singleton.
  - apply falling_priced.
  - reflexivity.
  - now exists out1, out2, w1, w2.
Defined.

Lemma Qzero_true (q : Q) : (q == 0)%Q -> Qzero q = true.
Proof. intros H. unfold Qzero. now apply Qeq_bool_iff. Qed.

Lemma Qneg_false (q : Q) : (0 <= q)%Q -> Qneg q = false.
Proof.
  intros H. unfold Qneg. apply Qle_bool_iff in H. now rewrite H.
Qed.

Lemma Qneg_true (q : Q) : (q < 0)%Q -> Qneg q = true.
Proof.
  intros H. unfold Qneg. destruct (Qle_bool 0 q) eqn:E; [|reflexivity].
  apply Qle_bool_iff in E. exfalso. eapply Qlt_irrefl, Qlt_le_trans; eauto.
Qed.

Lemma price_drop_zero_first (a b : Q) :
  (a == 0)%Q ->
  price_drop_of (Fin a) (Fin b)
  = if Qzero b then NaN else if Qneg b then PInf else NInf.
Proof.
  intros Ha. unfold price_drop_of. cbn [fsub fdiv].
  rewrite (Qzero_true a Ha).
  assert (E : (Qred (a - b) == - b)%Q).
  { rewrite Qred_correct, Ha. ring. }
  assert (Hz : Qzero (Qred (a - b)) = Qzero b).
  { unfold Qzero. destruct (Qeq_bool b 0) eqn:Eb.
    - apply Qeq_bool_iff. apply Qeq_bool_iff in Eb. rewrite E, Eb. reflexivity.
    - destruct (Qeq_bool (Qred (a - b)) 0) eqn:Ec; [|reflexivity].
      apply Qeq_bool_iff in Ec. rewrite E in Ec.
      assert (Hb : (b == 0)%Q).
      { rewrite <- (Qopp_involutive b), Ec. reflexivity. }
      apply Qeq_bool_iff in Hb. congruence. }
  rewrite Hz. destruct (Qzero b) eqn:Eb; [reflexivity|].
  assert (Hn : Qneg (Qred (a - b)) = negb (Qneg b)).
  { destruct (Qlt_le_dec b 0) as [Hlt|Hge].
    - rewrite (Qneg_true b Hlt). simpl. apply Qneg_false. rewrite E.
      apply Qlt_le_weak. rewrite <- Qopp_involutive at 1.
      change 0%Q with (- 0)%Q. apply Qopp_lt_compat.
      now rewrite Qopp_involutive.
    - rewrite (Qneg_false b Hge). simpl. apply Qneg_true. rewrite E.
      assert (Hpos : (0 < b)%Q).
      { apply Qle_lt_or_eq in Hge as [H|H]; [exact H|].
        symmetry in H. apply Qzero_true in H. congruence. }
      change 0%Q with (- 0)%Q. now apply Qopp_lt_compat. }
  rewrite Hn. destruct (Qneg b); reflexivity.
Qed.

(** X4.  The division by the first close is not guarded.  A series with
    data whose first close is zero and whose last close is positive gets
    the price drop minus infinity and is kept at every threshold (every
    threshold that is a number or an infinity); when both closes are zero
    the price drop is NaN and the series is never kept.  Nothing is
    raised. *)
Theorem price_drop_zero_first_close (w : world) (prices : pydict) (thr : fval)
        (s : string) (l : nat) (d : DataFrame) (a b : Q) :
  NoDup (keys prices) -> NoDup (refs prices) ->
  (forall s l, (s, l) ∈ prices -> exists d, objs w !! l = Some d /\ priced d) ->
  (s, l) ∈ prices -> objs w !! l = Some d -> empty_frame d = false ->
  close_at d 0 = Ok (Num (Fin a)) -> (a == 0)%Q ->
  close_at d (-1) = Ok (Num (Fin b)) ->
  exists out w',
    filter_by_price_drop prices thr w = Ok (out, w')
    /\ ((0 < b)%Q ->
        price_drop_of (Fin a) (Fin b) = NInf
        /\ ((s, l) ∈ out <-> is_nan thr = false))
    /\ ((b == 0)%Q ->
        price_drop_of (Fin a) (Fin b) = NaN /\ (s, l) ∉ out).
Proof.
  intros Hk Hr Hw Hin Hd He Ha Hz Hb.
  destruct (price_run thr prices w Hk Hr Hw) as [w' [Hrun _]].
  eexists _, w'. split; [exact Hrun|].
  assert (Hret : retained (objs w) thr (s, l)
                 = fle (price_drop_of (Fin a) (Fin b)) thr).
  { unfold retained, frame_drop. simpl. now rewrite Hd, He, Ha, Hb. }
  rewrite filter_elem, Hret, (price_drop_zero_first a b Hz). split.
  - intros Hpos.
    assert (Eb : Qzero b = false).
    { apply Qzero_false. intros E. rewrite E in Hpos.
      now apply Qlt_irrefl in Hpos. }
    rewrite Eb, (Qneg_false b (Qlt_le_weak _ _ Hpos)). split; [reflexivity|].
    destruct thr; simpl; intuition discriminate.
  - intros Eb. rewrite (Qzero_true b Eb). split; [reflexivity|].
    simpl. intros [_ H]. discriminate.
Qed.

Lemma price_drop_zero_first_close_witness :
  exists out w',
    filter_by_price_drop [("ZERO", 0%nat)] (Fin (-10)) zero_start_world
    = Ok (out, w')
    /\ ("ZERO", 0%nat) ∈ out.
Proof.
  destruct (price_drop_zero_first_close zero_start_world [("ZERO", 0%nat)]
              (Fin (-10)) "ZERO" 0%nat zero_start_series 0 50)
    as [out [w' [Hrun [Hpos _]]]].
  - apply NoDup_singleton.
  - apply NoDup_singleton.
  - intros s l H. apply list_elem_of_singleton in H. injection H as -> ->.
    exists zero_start_series. split; [reflexivity|]. right.
    exists (Fin 0), (Fin 50). split; reflexivity.
  - apply elem_of_cons. now left.
  - reflexivity.
  - reflexivity.
  - reflexivity.
  - reflexivity.
  - reflexivity.
  - exists out, w'. split; [exact Hrun|]. apply Hpos; reflexivity.
Defined.

Lemma for_each_app {A S} (xs ys : list A) (body : S -> A -> M S) acc w :
  for_each (xs ++ ys) body acc w
  = bind (for_each xs body acc) (for_each ys body) w.
Proof.
  revert acc w. induction xs as [|x xs IH]; intros acc w; simpl.
  - reflexivity.
  - unfold bind. destruct (body acc x w) as [[acc' w']|e]; [|reflexivity].
    rewrite IH. reflexivity.
Qed.

Lemma price_drop_body_no_close thr acc s l w d :
  objs w !! l = Some d -> empty_frame d = false ->
  has_label "close" (columns d) = false ->
  price_drop_body thr acc (s, l) w = Raise KeyError.
Proof.
  intros Hl He Hc. unfold price_drop_body.
  rewrite (bind_ok _ _ _ _ _ (load_ok _ _ _ Hl)). rewrite He. cbn [negb].
  apply bind_raise. unfold lift.
  destruct (data d) as [|r rows] eqn:Hd.
  { unfold empty_frame in He. rewrite Hd in He.
    destruct (columns d); discriminate. }
  rewrite (iloc_first d r rows Hd). simpl. unfold series_get. simpl.
  now rewrite (locate_absent _ _ Hc).
Qed.

(** X5.  A table with rows but without a [close] column makes the
    price-drop filter raise KeyError: when the entries before it are price
    series, the loop reaches it and the exception ends the filter, so no
    dictionary is returned, whatever comes after. *)
Theorem price_drop_filter_missing_close (w : world)
        (before after : pydict) (thr : fval)
        (s : string) (l : nat) (d : DataFrame) :
  NoDup (keys before) -> NoDup (refs (before ++ [(s, l)])) ->
  (forall s' l', (s', l') ∈ before ->
                 exists d', objs w !! l' = Some d' /\ priced d') ->
  objs w !! l = Some d -> empty_frame d = false ->
  has_label "close" (columns d) = false ->
  filter_by_price_drop (before ++ (s, l) :: after) thr w = Raise KeyError.
Proof.
  intros Hk Hr Hw Hd He Hc. unfold filter_by_price_drop.
  rewrite for_each_app. unfold refs in Hr. rewrite List.map_app in Hr.
  apply NoDup_app in Hr as [Hrb [Hdis _]].
  destruct (price_loop thr before [] w Hk Hrb) as [w1 [Hrun [_ Ho]]]; auto.
  { intros k _ H. inversion H. }
  rewrite (bind_ok _ _ _ _ _ Hrun). cbn [for_each]. apply bind_raise.
  apply (price_drop_body_no_close thr _ s l w1 d); auto.
  rewrite Ho. rewrite bool_decide_eq_false_2; [exact Hd|].
  intros Hin. apply (Hdis l Hin). simpl. apply elem_of_cons. now left.
Qed.

Lemma price_drop_filter_missing_close_witness :
  filter_by_price_drop ([("DOWN", 0%nat)] ++ [("BAD", 1%nat)] ) (Fin 50)
                       no_close_world
  = Raise KeyError.
Proof.
  apply (price_drop_filter_missing_close no_close_world [("DOWN", 0%nat)] []
           (Fin 50) "BAD" 1%nat no_close_table).
  - apply NoDup_singleton.
  - simpl. nodup_list.
  - intros s l H. apply list_elem_of_singleton in H. injection H as -> ->.
    exists falling_series. split; [reflexivity|]. right.
    exists (Fin 100), (Fin 80). split; reflexivity.
  - reflexivity.
  - reflexivity.
  - reflexivity.
Defined.

(** ** The aggregator without a price series *)

Lemma has_label_add_other n m labels :
  m <> n -> has_label m (add_label n labels) = has_label m labels.
Proof.
  intros Hne. unfold add_label. destruct (has_label n labels); [reflexivity|].
  unfold has_label. rewrite existsb_app. simpl.
  destruct (String.eqb_spec m n); [congruence|]. now rewrite !orb_false_r.
Qed.

Lemma collect_body_no_price prices acc s l w d ts os :
  objs w !! l = Some d -> holdings d ts os ->
  dict_get prices s = None ->
  has_label "price_drop" (columns d) = false ->
  collect_body prices acc (s, l) w = Raise KeyError.
Proof.
  intros Hd [Hwf [Hts Hos]] Hnone Hlab.
  set (oc := List.map Num (ownership_changes ts os)).
  assert (Hlen : List.length oc = List.length (data d)).
  { unfold oc. rewrite length_map. eapply ownership_changes_length; eauto. }
  set (d1 := setitem_scalar d "symbol" (Str s)).
  assert (Hoc : ownership_change_of d1 = Ok oc).
  { apply ownership_change_numeric.
    - apply getitem_setitem_scalar_other; [exact Hwf|discriminate|exact Hts].
    - apply getitem_setitem_scalar_other; [exact Hwf|discriminate|exact Hos]. }
  assert (Hd2 : exists d2, setitem_column d1 "ownership_change" oc = Ok d2
                           /\ columns d2
                              = add_label "ownership_change"
                                  (add_label "symbol" (columns d))).
  { unfold setitem_column. rewrite set_rows_zip.
    - simpl. eauto.
    - unfold d1. simpl. now rewrite length_map. }
  destruct Hd2 as [d2 [Hd2 Hc2]].
  unfold collect_body.
  rewrite (bind_ok _ _ _ _ _ (load_ok _ _ _ Hd)).
  fold d1. rewrite (bind_ok _ _ _ _ _ (store_run _ _ _)).
  rewrite (bind_ok _ _ _ _ _ (lift_ok _ _ _ Hoc)).
  rewrite (bind_ok _ _ _ _ _ (lift_ok _ _ _ Hd2)).
  rewrite (bind_ok _ _ _ _ _ (store_run _ _ _)).
  rewrite Hnone. unfold bind at 1. unfold ret at 1.
  apply bind_raise. unfold lift, project, candidate_columns.
  cbn [traverse]. rewrite Hc2.
  destruct Hwf as [Hnd _].
  destruct (locate_added "symbol" (columns d) Hnd) as [i1 Hi1].
  apply (locate_add_label "ownership_change" _ _ _ (add_label_NoDup _ _ Hnd))
    in Hi1.
  destruct (locate_added "ownership_change" (add_label "symbol" (columns d))
              (add_label_NoDup _ _ Hnd)) as [i2 Hi2].
  rewrite Hi1, Hi2. cbn [rbind].
  rewrite locate_absent; [reflexivity|].
  rewrite !has_label_add_other by discriminate. exact Hlab.
Qed.

(** X6.  The aggregator attaches a price drop only to a symbol it finds
    in the dictionary of filtered price series.  For a symbol that is not
    there, whose table has no [price_drop] column of its own, the
    selection of the three columns raises KeyError: the loop ends there
    and the aggregator raises instead of returning a table. *)
Theorem aggregate_missing_price_series (RESULTS_DIR : string) (w : world)
        (prices before after : pydict)
        (s : string) (l : nat) (d : DataFrame) (ts os : list fval) :
  NoDup (refs (before ++ [(s, l)])) ->
  (forall s' lp, s' ∈ keys before -> dict_get prices s' = Some lp ->
                 lp ∉ refs before) ->
  (forall s' l', (s', l') ∈ before ->
     exists d' ts' os' x,
       objs w !! l' = Some d' /\ holdings d' ts' os'
       /\ attached_drop (objs w) prices s' x) ->
  objs w !! l = Some d -> holdings d ts os ->
  dict_get prices s = None ->
  has_label "price_drop" (columns d) = false ->
  aggregate RESULTS_DIR prices (before ++ (s, l) :: after) w = Raise KeyError.
Proof.
  intros Hr Hp Hw Hd Hh Hnone Hlab.
  unfold aggregate. apply bind_raise. unfold collect_candidates.
  rewrite for_each_app. unfold refs in Hr. rewrite List.map_app in Hr.
  apply NoDup_app in Hr as [Hrb [Hdis _]].
  destruct (collect_loop prices before [] w Hrb Hp Hw)
    as [fs [w1 [Hrun [_ [_ Hfr]]]]].
  rewrite (bind_ok _ _ _ _ _ Hrun). cbn [for_each]. apply bind_raise.
  apply (collect_body_no_price prices _ s l w1 d ts os); auto.
  rewrite Hfr; [exact Hd|].
  intros Hin. apply (Hdis l Hin). simpl. apply elem_of_cons. now left.
Qed.

Lemma aggregate_missing_price_series_witness :
  aggregate "results" abc_prices_dict ([] ++ [("QQQ", 1%nat)]) stray_world
  = Raise KeyError.
Proof.
  apply (aggregate_missing_price_series "results" stray_world abc_prices_dict
           [] [] "QQQ" 1%nat abc_buys
           (List.map Fin [500; 1500]%Q) (List.map Fin [10000; 10000]%Q)).
  - simpl. nodup_list.
  - intros s lp H. inversion H.
  - intros s l H. inversion H.
  - reflexivity.
  - apply abc_holdings.
  - reflexivity.
  - reflexivity.
Defined.

(** ** More on the insider-buy filter *)

Lemma ceo_keys_NoDup items : forall acc w out w',
  NoDup (keys acc) ->
  for_each items ceo_buys_body acc w = Ok (out, w') -> NoDup (keys out).
Proof.
  induction items as [|[s l] items IH]; intros acc w out w' Hacc H.
  - now injection H as <- <-.
  - simpl in H. apply bind_inv in H as [acc1 [w1 [Hb H]]].
    apply ceo_buys_body_cases in Hb as [[-> ->]|[-> [b ->]]].
    + eapply IH; eauto.
    + eapply IH; [|exact H]. now apply dict_set_keys_NoDup.
Qed.

(** X7.  The insider-buy filter works on copies.  It leaves every object
    of the store as it was and prints nothing; the tables of its output
    are new objects, one per surviving symbol, distinct from each other
    and from every object that existed, so that what is later written
    into them does not reach the tables it was given. *)
Theorem insider_buy_filter_copies (w : world) (trades : pydict) :
  NoDup (keys trades) ->
  (forall s l, (s, l) ∈ trades -> exists d, objs w !! l = Some d /\ traded d) ->
  exists out new,
    filter_by_ceo_buys trades w = Ok (out, mkWorld (objs w ++ new) (log w))
    /\ refs out = seq (List.length (objs w)) (List.length new)
    /\ NoDup (refs out) /\ NoDup (keys out)
    /\ (forall l, l ∈ refs out -> objs w !! l = None).
Proof.
  intros Hk Hw.
  destruct (ceo_loop trades [] w Hk) as [out [new [Hrun _]]]; auto.
  { intros k _ H. inversion H. }
  simpl in Hrun.
  destruct (ceo_refs trades [] w out (mkWorld (objs w ++ new) (log w)) Hk)
    as [k [Hout [Hrefs Hlen]]]; [|exact Hrun|].
  { intros k _ H. inversion H. }
  simpl in Hout. subst k. cbn [objs] in Hlen. rewrite length_app in Hlen.
  assert (Hn : List.length new = List.length out) by lia.
  exists out, new. split; [exact Hrun|]. rewrite Hn.
  split; [exact Hrefs|]. split; [rewrite Hrefs; apply NoDup_seq|].
  split.
  - eapply ceo_keys_NoDup; [|exact Hrun]. apply NoDup_nil_2.
  - intros l Hl. rewrite Hrefs in Hl. apply elem_of_seq in Hl.
    apply lookup_ge_None. lia.
Qed.

Lemma trades_world_traded s l :
  (s, l) ∈ [("ABC", 0%nat); ("XYZ", 1%nat)] ->
  exists d, objs trades_world !! l = Some d /\ traded d.
Proof.
  intros H. apply elem_of_cons in H as [H|H].
  - injection H as -> ->. exists trades_example. split; [reflexivity|].
    eexists _, _. split; reflexivity.
  - apply list_elem_of_singleton in H. injection H as -> ->.
    exists no_buys_example. split; [reflexivity|].
    eexists _, _. split; reflexivity.
Qed.

Lemma insider_buy_filter_copies_witness :
  exists out new,
    filter_by_ceo_buys [("ABC", 0%nat); ("XYZ", 1%nat)] trades_world
    = Ok (out, mkWorld (objs trades_world ++ new) (log trades_world))
    /\ NoDup (refs out).
Proof.
  destruct (insider_buy_filter_copies trades_world
              [("ABC", 0%nat); ("XYZ", 1%nat)])
    as [out [new [Hrun [_ [Hnd _]]]]].
  - nodup_list.
  - apply trades_world_traded.
  - now exists out, new.
Defined.

Lemma traded_mask d m : traded d -> traded (mask_rows d m).
Proof.
  intros [owners [types [Ho Ht]]].
  exists (select owners m), (select types m).
  split; now apply getitem_mask_rows.
Qed.

Lemma ceo_buys_of_idem d b : ceo_buys_of d = Ok b -> ceo_buys_of b = Ok b.
Proof.
  intros Hb. destruct (ceo_buys_of_spec d b Hb) as [Hc Hdat].
  assert (Ht : traded b).
  { destruct (ceo_buys_of_mask d b Hb) as [m ->]. apply traded_mask.
    unfold ceo_buys_of in Hb. apply rbind_inv in Hb as [owners [Ho Hb]].
    apply rbind_inv in Hb as [types [Hty _]]. now exists owners, types. }
  destruct Ht as [owners [types [Ho Hty]]].
  assert (Hb' : exists b', ceo_buys_of b = Ok b').
  { unfold ceo_buys_of. rewrite Ho, Hty. simpl. eauto. }
  destruct Hb' as [b' Hb']. rewrite Hb'. f_equal.
  destruct (ceo_buys_of_spec b b' Hb') as [Hc' Hdat'].
  assert (Hm : forall r, row_mask b r = row_mask d r).
  { intros r. unfold row_mask. now rewrite Hc. }
  rewrite (filter_ext _ _ Hm), Hdat, filter_idem, <- Hdat in Hdat'.
  destruct b, b'. simpl in *. congruence.
Qed.

(** X8.  Filtering twice is filtering once: the insider-buy filter run on
    its own output keeps every symbol, and the table it stores for a
    symbol is equal to the one it was given for it. *)
Theorem insider_buy_filter_idempotent (w : world) (trades : pydict) :
  NoDup (keys trades) ->
  (forall s l, (s, l) ∈ trades -> exists d, objs w !! l = Some d /\ traded d) ->
  exists out w1 out2 w2,
    filter_by_ceo_buys trades w = Ok (out, w1)
    /\ filter_by_ceo_buys out w1 = Ok (out2, w2)
    /\ (forall s, s ∈ keys out2 <-> s ∈ keys out)
    /\ (forall s l2, (s, l2) ∈ out2 ->
          exists l1, (s, l1) ∈ out /\ objs w2 !! l2 = objs w1 !! l1).
Proof.
  intros Hk Hw.
  destruct (ceo_loop trades [] w Hk) as [out [new [Hrun [_ [_ H3]]]]]; auto.
  { intros k _ H. inversion H. }
  simpl in Hrun. set (w1 := mkWorld (objs w ++ new) (log w)) in *.
  assert (Hk1 : NoDup (keys out)).
  { eapply ceo_keys_NoDup; [|exact Hrun]. apply NoDup_nil_2. }
  assert (Hw1 : forall s l, (s, l) ∈ out ->
                  exists b, objs w1 !! l = Some b /\ ceo_buys_of b = Ok b
                            /\ empty_frame b = false).
  { intros s l Hin. destruct (H3 s l Hin) as [l0 [d [b [_ [_ [Hb [He Hl]]]]]]].
    exists b. split; [exact Hl|]. split; [|exact He].
    eapply ceo_buys_of_idem; eauto. }
  destruct (ceo_loop out [] w1 Hk1) as [out2 [new2 [Hrun2 [G1 [G2 G3]]]]].
  { intros k _ H. inversion H. }
  { intros s l Hin. destruct (Hw1 s l Hin) as [b [Hl [Hb _]]].
    exists b. split; [exact Hl|]. unfold ceo_buys_of in Hb.
    apply rbind_inv in Hb as [owners [Ho Hb]].
    apply rbind_inv in Hb as [types [Hty _]]. now exists owners, types. }
  simpl in Hrun2.
  exists out, w1, out2, (mkWorld (objs w1 ++ new2) (log w1)).
  split; [exact Hrun|]. split; [exact Hrun2|]. split.
  - intros s. split; [apply G1|]. intros Hs.
    apply keys_elem in Hs as [l Hin].
    destruct (Hw1 s l Hin) as [b [Hl [Hb He]]].
    apply (G2 s l b Hin Hl). eauto.
  - intros s l2 Hin.
    destruct (G3 s l2 Hin) as [l1 [b [b2 [Hin1 [Hl1 [Hb2 [_ Hl2]]]]]]].
    exists l1. split; [exact Hin1|].
    destruct (Hw1 s l1 Hin1) as [b' [Hl1' [Hb' _]]].
    assert (b' = b) as -> by congruence.
    cbn [objs]. rewrite Hl2, Hl1. congruence.
Qed.

Lemma insider_buy_filter_idempotent_witness :
  exists out w1 out2 w2,
    filter_by_ceo_buys [("ABC", 0%nat); ("XYZ", 1%nat)] trades_world
    = Ok (out, w1)
    /\ filter_by_ceo_buys out w1 = Ok (out2, w2)
    /\ (forall s, s ∈ keys out2 <-> s ∈ keys out).
Proof.
  destruct (insider_buy_filter_idempotent trades_world
              [("ABC", 0%nat); ("XYZ", 1%nat)])
    as [out [w1 [out2 [w2 [H1 [H2 [H3 _]]]]]]].
  - nodup_list.
  - apply trades_world_traded.
  - now exists out, w1, out2, w2.
Defined.

(** ** The role match *)

Lemma lower_ascii_idem c : lower_ascii (lower_ascii c) = lower_ascii c.
Proof.
  destruct c as [[] [] [] [] [] [] [] []]; reflexivity.
Qed.

Lemma lower_idem s : lower (lower s) = lower s.
Proof.
  induction s as [|c s IH]; simpl; [reflexivity|].
  now rewrite lower_ascii_idem, IH.
Qed.

Lemma lower_app (a b : string) :
  lower (a ++ b)%string = (lower a ++ lower b)%string.
Proof. induction a as [|c a IH]; simpl; [reflexivity|]. now rewrite IH. Qed.

Lemma string_app_assoc (a b c : string) :
  ((a ++ b) ++ c)%string = (a ++ (b ++ c))%string.
Proof. induction a as [|x a IH]; simpl; [reflexivity|]. now rewrite IH. Qed.

Lemma ci_substring_widen pat o1 o2 pre suf :
  lower o1 = lower o2 -> ci_substring pat o1 ->
  ci_substring pat (pre ++ o2 ++ suf)%string.
Proof.
  intros Hl [p [q H]]. unfold ci_substring.
  exists (lower pre ++ p)%string, (q ++ lower suf)%string.
  rewrite !lower_app, <- Hl, H. now rewrite !string_app_assoc.
Qed.

(** X9.  The owner text is matched by content, the transaction type by
    identity.  When an owner text qualifies with some transaction type,
    so does every text that agrees with it up to the case of its letters,
    with anything written before and after it; and the transaction type
    is then exactly "P-Purchase", in this spelling. *)
Theorem owner_match_is_by_content (o1 o2 pre suf : string) (t : cell) :
  lower o1 = lower o2 ->
  ceo_buy (Str o1) t = true ->
  ceo_buy (Str (pre ++ o2 ++ suf)) t = true /\ t = Str "P-Purchase".
Proof.
  intros Hl H. destruct (ceo_buy_text _ _ H) as [owner [type [[= <-] ->]]].
  apply ceo_buy_spec in H as [-> Hc]. split; [|reflexivity].
  apply ceo_buy_spec. split; [reflexivity|].
  destruct Hc as [Hc|[Hc|[Hc|Hc]]];
    [left|right; left|right; right; left|right; right; right];
    eapply ci_substring_widen; eauto.
Qed.

Lemma owner_match_is_by_content_witness :
  ceo_buy (Str ("Former " ++ "EXECUTIVE DIRECTOR" ++ " (retired)"))
          (Str "P-Purchase") = true
  /\ Str "P-Purchase" = Str "P-Purchase".
Proof.
  apply (owner_match_is_by_content "executive director" "EXECUTIVE DIRECTOR"
           "Former " " (retired)" (Str "P-Purchase")); reflexivity.
Defined.

(** ** Grouping, persistence and the plot *)

Lemma groupby_mean_inv d t :
  groupby_mean d = Ok t ->
  exists symbols oc pd,
    rbind (getitem d "symbol") (traverse as_key) = Ok symbols
    /\ t = mkDF candidate_columns
             (List.map (fun k => [Str k;
                                  Num (mean (group_of k symbols oc));
                                  Num (mean (group_of k symbols pd))])
                       (group_keys symbols)).
Proof.
  unfold groupby_mean. intros H.
  apply rbind_inv in H as [symbols [Hs H]].
  apply rbind_inv in H as [oc [_ H]].
  apply rbind_inv in H as [pd [_ [= <-]]].
  now exists symbols, oc, pd.
Qed.

(** X10.  The grouping gives one row per distinct symbol of its input, in
    strictly ascending order of the symbols, however the input rows are
    ordered and however many rows a symbol has; it never has more rows
    than its input. *)
Theorem groupby_mean_one_row_per_symbol (d t : DataFrame) :
  groupby_mean d = Ok t ->
  columns t = candidate_columns
  /\ exists symbols ks,
       rbind (getitem d "symbol") (traverse as_key) = Ok symbols
       /\ row_symbols t = List.map Str ks
       /\ StronglySorted String_as_OT.lt ks
       /\ (forall s, s ∈ ks <-> s ∈ symbols)
       /\ (List.length (data t) <= List.length (data d))%nat.
Proof.
  intros H. destruct (groupby_mean_inv d t H) as [symbols [oc [pd [Hs ->]]]].
  split; [reflexivity|]. exists symbols, (group_keys symbols).
  split; [exact Hs|]. split.
  { unfold row_symbols. cbn [data]. now rewrite List.map_map. }
  split; [apply group_keys_sorted|]. split.
  { intros s. rewrite !list_elem_of_In. apply group_keys_In. }
  cbn [data]. rewrite length_map.
  apply rbind_inv in Hs as [col [Hcol Hs]].
  apply traverse_length in Hs. apply getitem_length in Hcol.
  rewrite <- Hcol, <- Hs.
  apply List.NoDup_incl_length.
  - apply NoDup_ListNoDup, group_keys_NoDup.
  - intros s. apply group_keys_In.
Qed.

Lemma groupby_mean_one_row_per_symbol_witness :
  exists t,
    groupby_mean unordered_rows = Ok t
    /\ row_symbols t = List.map Str ["AAPL"; "IBM"; "MSFT"].
Proof.
  eexists. split; [reflexivity|].
  destruct (groupby_mean_one_row_per_symbol unordered_rows _ eq_refl)
    as [_ [symbols [ks [_ [Hrows _]]]]].
  reflexivity.
Defined.











(** ** More on the normalizer *)

Lemma lower_ascii_not_upper a : is_upper (lower_ascii a) = false.
Proof. destruct a as [[] [] [] [] [] [] [] []]; reflexivity. Qed.

Lemma eqb_capital c k s :
  is_upper c = true -> String.eqb (String c k) (lower s) = false.
Proof.
  intros Hc. destruct s as [|a s]; simpl; [reflexivity|].
  destruct (Ascii.eqb_spec c (lower_ascii a)) as [->|_]; [|reflexivity].
  rewrite lower_ascii_not_upper in Hc. discriminate.
Qed.

Lemma rename_lower l : rename_by rename_mapping (lower l) = normal_label l.
Proof.
  unfold rename_by, normal_label, rename_mapping. cbn [mapping_get].
  rewrite (String.eqb_sym "adjclose" (lower l)).
  rewrite !eqb_capital by reflexivity.
  now destruct (String.eqb (lower l) "adjclose").
Qed.

Lemma normal_label_idem l : normal_label (normal_label l) = normal_label l.
Proof.
  destruct (String.eqb (lower l) "adjclose") eqn:E.
  - assert (H : normal_label l = "adj_close")
      by (unfold normal_label; now rewrite E).
    now rewrite H.
  - assert (H : normal_label l = lower l)
      by (unfold normal_label; now rewrite E).
    rewrite H. unfold normal_label. now rewrite lower_idem, E.
Qed.

Lemma rename_normal d :
  rename_columns (rename_by rename_mapping) (rename_columns lower d)
  = mkDF (List.map normal_label (columns d)) (data d).
Proof.
  unfold rename_columns. simpl. rewrite List.map_map. f_equal.
  apply map_ext. intros l. apply rename_lower.
Qed.

Section NormalizerMore.

Variable parse_datetime : string -> option Z.
Variable datetime_of_number : fval -> option Z.
Variable parse_number : string -> fval.

Let standardize :=
  standardize_ohlcv_dataframe parse_datetime datetime_of_number parse_number.
Let date_pass := convert_date parse_datetime datetime_of_number.
Let to_date := to_datetime parse_datetime datetime_of_number.

Lemma convert_date_columns d d' : date_pass d = Ok d' -> columns d' = columns d.
Proof.
  intros H.
  now destruct (cleaned_is_fixed parse_datetime datetime_of_number d d' H)
    as [Hc _].
Qed.

Lemma set_rows_length n labels : forall rows vals rows',
  set_rows n labels rows vals = Ok rows' ->
  List.length rows' = List.length rows.
Proof.
  induction rows as [|r rows IH]; intros [|v vals] rows' H; simpl in H;
    try discriminate.
  - now injection H as <-.
  - apply rbind_inv in H as [rs [Hrs [= <-]]]. simpl. f_equal. eauto.
Qed.

Lemma convert_date_rows d d' :
  date_pass d = Ok d' -> List.length (data d') = List.length (data d).
Proof.
  unfold date_pass, convert_date. destruct (has_label "date" (columns d)).
  - intros H. apply rbind_inv in H as [col [_ H]].
    unfold setitem_column in H. apply rbind_inv in H as [rows [Hr [= <-]]].
    simpl. eapply set_rows_length; eauto.
  - now intros [= <-].
Qed.

(** The normalizer, step by step. *)
Lemma standardize_inv df d :
  standardize df = Ok d ->
  exists d',
    date_pass (mkDF (List.map normal_label (columns df)) (data df)) = Ok d'
    /\ d = dropna (replace_inf d').
Proof.
  unfold standardize, standardize_ohlcv_dataframe. rewrite rename_normal.
  intros H. apply rbind_inv in H as [d' [Hd' H]]. cbv zeta in H.
  rewrite ffill_dropna in H.
  apply (numeric_columns_id parse_number) in H. subst d. now exists d'.
Qed.

(** X12.  The labels of the columns after the normalizer are the labels
    before it in lower case, with [adjclose] alone renamed (to
    [adj_close]): the entries of the rename table that are spelled with a
    capital are looked up after the labels are lowercased and never
    apply.  So "Date", "Close" and "AdjClose" arrive as [date], [close]
    and [adj_close], but "Datetime" stays [datetime], "Time" [time] and
    "Adj Close" [adj close]. *)
Theorem standardize_labels (df d : DataFrame) :
  standardize df = Ok d ->
  columns d = List.map normal_label (columns df)
  /\ List.map normal_label ["Date"; "Close"; "AdjClose"; "adjclose"]
     = ["date"; "close"; "adj_close"; "adj_close"]
  /\ List.map normal_label ["Datetime"; "DateTime"; "Time"; "Adj Close"]
     = ["datetime"; "datetime"; "time"; "adj close"].
Proof.
  intros H. split; [|split; reflexivity].
  destruct (standardize_inv df d H) as [d' [Hd' ->]].
  apply convert_date_columns in Hd'. simpl. exact Hd'.
Qed.

Lemma complete_row_clean r c :
  complete_row r = true -> c ∈ r -> isna c = false.
Proof.
  unfold complete_row. rewrite forallb_forall. intros H Hc.
  apply list_elem_of_In in Hc. specialize (H c Hc).
  now destruct (isna c).
Qed.

Lemma replace_inf_cell_finite c :
  replace_inf_cell c <> Num PInf /\ replace_inf_cell c <> Num NInf.
Proof. destruct c as [[| | |]| | |]; simpl; split; discriminate. Qed.

(** X13.  What the normalizer returns holds no missing and no infinite
    value, and at most as many rows as it was given; when it has a
    [date] column, every cell of it is a timestamp. *)
Theorem standardize_output_is_clean (df d : DataFrame) :
  standardize df = Ok d ->
  (forall r c, r ∈ data d -> c ∈ r -> clean_cell c)
  /\ (List.length (data d) <= List.length (data df))%nat
  /\ (forall col c, getitem d "date" = Ok col -> c ∈ col ->
                    exists t, c = Stamp (Some t)).
Proof.
  intros H. destruct (standardize_inv df d H) as [d' [Hd' ->]].
  split; [|split].
  - intros r c Hr Hc. simpl in Hr. apply filter_elem in Hr as [Hr Hcomp].
    split; [eapply complete_row_clean; eauto|].
    apply list_elem_of_fmap in Hr as [r0 [-> _]].
    apply list_elem_of_fmap in Hc as [c0 [-> _]].
    apply replace_inf_cell_finite.
  - pose proof (convert_date_rows _ _ Hd') as Hl. simpl in Hl |- *.
    rewrite <- Hl.
    etransitivity; [apply List.filter_length_le|]. now rewrite length_map.
  - intros col c Hcol Hc.
    destruct (cleaned_is_fixed parse_datetime datetime_of_number _ d' Hd')
      as [_ [Hfix _]].
    cbv zeta in Hfix. set (d1 := dropna (replace_inf d')) in *.
    unfold convert_date in Hfix.
    destruct (getitem_located _ _ _ Hcol) as [i0 Hi0].
    rewrite (locate_has_label "date" (columns d1) i0 Hi0) in Hfix.
    clear i0 Hi0.
    rewrite Hcol in Hfix. simpl in Hfix.
    assert (Hmap : List.map to_date col = col).
    { unfold setitem_column in Hfix.
      apply rbind_inv in Hfix as [rows [Hrows Hfix]].
      assert (rows = data d1) as -> by (injection Hfix as _ E; exact E).
      unfold getitem in Hcol. apply rbind_inv in Hcol as [i [Hi Hcol]].
      pose proof (set_rows_column _ _ _ _ _ _ Hi
                    (traverse_cell_length _ _ _ Hcol) Hrows) as Hnew.
      unfold to_date. congruence. }
    assert (Hst : exists t, c = Stamp t).
    { apply list_elem_of_In in Hc. rewrite <- Hmap in Hc.
      apply in_map_iff in Hc as [c0 [<- _]]. destruct c0; simpl; eauto. }
    destruct Hst as [[t|] ->]; [eauto|]. exfalso.
    unfold getitem in Hcol. apply rbind_inv in Hcol as [i [Hi Hcol]].
    assert (Hex : exists r, In r (data d1) /\ cell_at r i = Ok (Stamp None)).
    { clear - Hcol Hc. revert col Hcol Hc.
      induction (data d1) as [|r rows IH]; intros col Hcol Hc.
      - injection Hcol as <-. inversion Hc.
      - apply traverse_inv in Hcol as [c [col' [Hc0 [Hcol' ->]]]].
        apply elem_of_cons in Hc as [<-|Hc].
        + exists r. split; [now left|exact Hc0].
        + destruct (IH col' Hcol' Hc) as [r' [Hr' Hc']]. exists r'.
          split; [now right|exact Hc']. }
    destruct Hex as [r [Hr Hcell]]. unfold d1 in Hr. simpl in Hr.
    apply filter_In in Hr as [_ Hcomp].
    unfold cell_at in Hcell. destruct (nth_error r i) as [x|] eqn:En;
      [|discriminate]. injection Hcell as ->.
    apply nth_error_In in En. apply list_elem_of_In in En.
    pose proof (complete_row_clean _ _ Hcomp En). discriminate.
Qed.

(** X14.  The normalizer is idempotent on every table, not only on
    canonical ones: whatever it returns, it returns unchanged when applied
    to it again. *)
Theorem standardize_idempotent (df d : DataFrame) :
  standardize df = Ok d -> standardize d = Ok d.
Proof.
  intros H. pose proof H as H0.
  destruct (standardize_inv df d H) as [d' [Hd' Hd]].
  unfold standardize, standardize_ohlcv_dataframe in *.
  rewrite rename_normal in H0.
  apply rbind_inv in H0 as [d2 [Hd2 H0]]. cbv zeta in H0.
  fold date_pass in Hd2. assert (d2 = d') as -> by congruence.
  rewrite ffill_dropna in H0. rewrite <- Hd in H0.
  destruct (cleaned_is_fixed parse_datetime datetime_of_number _ d' Hd')
    as [Hcols [Hdate [Hrep Hdrop]]].
  cbv zeta in Hcols, Hdate, Hrep, Hdrop. rewrite <- Hd in *.
  rewrite rename_normal.
  assert (Hsame : mkDF (List.map normal_label (columns d)) (data d) = d).
  { simpl in Hcols. rewrite Hcols. rewrite List.map_map.
    rewrite (map_ext _ normal_label normal_label_idem).
    rewrite <- Hcols. apply frame_eta. }
  rewrite Hsame. rewrite Hdate. simpl.
  rewrite Hrep, ffill_dropna, Hdrop. exact H0.
Qed.

Lemma positions_count name labels : forall k,
  List.length (positions name labels k)
  = List.length (List.filter (String.eqb name) labels).
Proof.
  induction labels as [|l labels IH]; intros k; simpl; [reflexivity|].
  rewrite (String.eqb_sym name l).
  destruct (String.eqb l name); simpl; now rewrite IH.
Qed.

Lemma cell_at_total (rows : list (list cell)) i :
  (forall r, In r rows -> (i < List.length r)%nat) ->
  exists col, traverse (fun r => cell_at r i) rows = Ok col.
Proof.
  intros H. exists (List.map (fun r => nth i r Null) rows).
  apply traverse_ok. intros r Hr. unfold cell_at.
  destruct (nth_error r i) eqn:E.
  - now rewrite (nth_error_nth _ _ _ E).
  - apply nth_error_None in E. specialize (H r Hr). lia.
Qed.

Lemma getitem_total d name i :
  rectangular d -> locate name (columns d) = Ok i ->
  exists col, getitem d name = Ok col.
Proof.
  intros Hr Hi. unfold getitem. rewrite Hi. simpl. apply cell_at_total.
  intros r Hin. apply list_elem_of_In in Hin. rewrite (Hr r Hin).
  apply nth_error_Some. rewrite (locate_nth _ _ _ Hi). discriminate.
Qed.

Lemma numeric_step_total d column :
  rectangular d -> numeric_step parse_number d column = Ok d.
Proof.
  intros Hr. unfold numeric_step.
  destruct (locate column (columns d)) as [i|e] eqn:Hi; [|reflexivity].
  destruct (getitem_total d column i Hr Hi) as [col Hcol].
  rewrite Hcol. simpl.
  destruct (is_numeric_dtype col) eqn:Hn; [|reflexivity].
  rewrite (to_numeric_numbers parse_number col Hn).
  now apply setitem_column_own.
Qed.

Lemma numeric_columns_total labels d :
  rectangular d -> numeric_columns parse_number labels d = Ok d.
Proof.
  intros Hr. induction labels as [|c labels IH]; simpl; [reflexivity|].
  rewrite numeric_step_total by exact Hr. exact IH.
Qed.

Lemma rectangular_clean d :
  rectangular d -> rectangular (dropna (replace_inf d)).
Proof.
  intros Hr r Hin. simpl in *. apply filter_elem in Hin as [Hin _].
  apply list_elem_of_fmap in Hin as [r0 [-> Hin]].
  rewrite length_map. now apply Hr.
Qed.

Lemma set_rows_In name labels : forall rows vals rows' r',
  set_rows name labels rows vals = Ok rows' -> In r' rows' ->
  exists r v, In r rows /\ r' = set_cell name labels r v.
Proof.
  induction rows as [|r rows IH]; intros [|v vals] rows' r' H Hin;
    simpl in H; try discriminate.
  - injection H as <-. contradiction.
  - apply rbind_inv in H as [rs [Hrs [= <-]]]. destruct Hin as [<-|Hin].
    + exists r, v. split; [now left|reflexivity].
    + destruct (IH _ _ _ Hrs Hin) as [r0 [v0 [H0 ->]]].
      exists r0, v0. split; [now right|reflexivity].
Qed.

Lemma convert_date_rectangular d d' :
  rectangular d ->
  convert_date parse_datetime datetime_of_number d = Ok d' ->
  rectangular d'.
Proof.
  intros Hr. unfold convert_date.
  destruct (has_label "date" (columns d)) eqn:Hl.
  - intros H. apply rbind_inv in H as [col [_ H]]. unfold setitem_column in H.
    apply rbind_inv in H as [rows [Hrows [= <-]]]. intros r' Hin. simpl in *.
    apply list_elem_of_In in Hin.
    destruct (set_rows_In _ _ _ _ _ _ Hrows Hin) as [r [v [Hrin ->]]].
    apply set_cell_length. apply Hr. now apply list_elem_of_In.
  - now intros [= <-].
Qed.

Lemma convert_date_total d :
  rectangular d ->
  (List.length (List.filter (String.eqb "date") (columns d)) <= 1)%nat ->
  exists d', convert_date parse_datetime datetime_of_number d = Ok d'.
Proof.
  intros Hr Hc. unfold convert_date.
  destruct (has_label "date" (columns d)) eqn:Hl; [|eauto].
  assert (Hi : exists i, locate "date" (columns d) = Ok i).
  { unfold locate. rewrite <- (positions_count "date" (columns d) 0) in Hc.
    destruct (positions "date" (columns d) 0) as [|i [|j rest]] eqn:E.
    - apply has_label_nth in Hl as [j Hj].
      apply (positions_complete _ _ 0) in Hj. rewrite E in Hj. contradiction.
    - eauto.
    - simpl in Hc. lia. }
  destruct Hi as [i Hi]. destruct (getitem_total d "date" i Hr Hi) as [col Hcol].
  rewrite Hcol. simpl. unfold setitem_column.
  rewrite set_rows_zip; [simpl; eauto|].
  rewrite length_map. eapply getitem_length; eauto.
Qed.

Lemma convert_date_two d :
  (2 <= List.length (List.filter (String.eqb "date") (columns d)))%nat ->
  convert_date parse_datetime datetime_of_number d = Raise ValueError.
Proof.
  intros Hc. unfold convert_date.
  rewrite <- (positions_count "date" (columns d) 0) in Hc.
  destruct (positions "date" (columns d) 0) as [|i [|j rest]] eqn:E;
    simpl in Hc; try lia.
  assert (Hl : has_label "date" (columns d) = true).
  { apply has_label_nth.
    destruct (positions_sound "date" (columns d) 0 i) as [_ Hn];
      [rewrite E; now left|]. eauto. }
  rewrite Hl. unfold getitem, locate. rewrite E. reflexivity.
Qed.

(** X15.  On a table of pandas the normalizer fails in one case only: when
    two or more columns are called [date] once the labels are renamed
    (as with "Date" beside "date"), the conversion of the date column
    raises ValueError; in every other case a table is returned. *)
Theorem standardize_fails_on_two_dates (df : DataFrame) :
  rectangular df ->
  ((date_columns df <= 1)%nat -> exists d, standardize df = Ok d)
  /\ ((2 <= date_columns df)%nat -> standardize df = Raise ValueError).
Proof.
  intros Hr. unfold standardize, standardize_ohlcv_dataframe.
  rewrite rename_normal.
  set (d0 := mkDF (List.map normal_label (columns df)) (data df)).
  assert (Hr0 : rectangular d0).
  { intros r Hin. simpl in *. rewrite length_map. now apply Hr. }
  split; intros Hc.
  - destruct (convert_date_total d0 Hr0 Hc) as [d' Hd']. rewrite Hd'.
    cbn [rbind]. cbv zeta. rewrite ffill_dropna.
    exists (dropna (replace_inf d')). apply numeric_columns_total.
    apply rectangular_clean. eapply convert_date_rectangular; eauto.
  - now rewrite (convert_date_two d0 Hc).
Qed.

End NormalizerMore.

Lemma raw_example_rectangular : rectangular raw_example.
Proof.
  intros r Hr. simpl in Hr.
  repeat (apply elem_of_cons in Hr as [->|Hr]; [reflexivity|]).
  inversion Hr.
Qed.

Lemma two_dates_rectangular : rectangular two_dates_example.
Proof.
  intros r Hr. simpl in Hr.
  repeat (apply elem_of_cons in Hr as [->|Hr]; [reflexivity|]).
  inversion Hr.
Qed.

Lemma standardize_labels_witness :
  columns raw_example_normalized
  = List.map normal_label (columns raw_example)
  /\ List.map normal_label ["Date"; "Close"; "AdjClose"; "adjclose"]
     = ["date"; "close"; "adj_close"; "adj_close"]
  /\ List.map normal_label ["Datetime"; "DateTime"; "Time"; "Adj Close"]
     = ["datetime"; "datetime"; "time"; "adj close"].
Proof.
  apply (standardize_labels example_parse_datetime example_datetime_of_number
           example_parse_number raw_example raw_example_normalized).
  vm_compute. reflexivity.
Defined.

Lemma standardize_output_is_clean_witness :
  (forall r c, r ∈ data raw_example_normalized -> c ∈ r -> clean_cell c)
  /\ (List.length (data raw_example_normalized)
      <= List.length (data raw_example))%nat
  /\ (forall col c, getitem raw_example_normalized "date" = Ok col ->
                    c ∈ col -> exists t, c = Stamp (Some t)).
Proof.
  apply (standardize_output_is_clean example_parse_datetime
           example_datetime_of_number example_parse_number
           raw_example raw_example_normalized).
  vm_compute. reflexivity.
Defined.

Lemma standardize_idempotent_witness :
  standardize_ohlcv_dataframe example_parse_datetime
    example_datetime_of_number example_parse_number raw_example_normalized
  = Ok raw_example_normalized.
Proof.
  apply (standardize_idempotent example_parse_datetime
           example_datetime_of_number example_parse_number
           raw_example raw_example_normalized).
  vm_compute. reflexivity.
Defined.

Lemma standardize_fails_on_two_dates_witness :
  (exists d, standardize_ohlcv_dataframe example_parse_datetime
               example_datetime_of_number example_parse_number raw_example
             = Ok d)
  /\ standardize_ohlcv_dataframe example_parse_datetime
       example_datetime_of_number example_parse_number two_dates_example
     = Raise ValueError.
Proof.
  split.
  - apply (standardize_fails_on_two_dates example_parse_datetime
             example_datetime_of_number example_parse_number raw_example
             raw_example_rectangular).
    vm_compute. lia.
  - apply (standardize_fails_on_two_dates example_parse_datetime
             example_datetime_of_number example_parse_number two_dates_example
             two_dates_rectangular).
    vm_compute. lia.
Defined.

(** ** main.py *)


